(** * auth-plugin-vue: session tokens, refresh-and-retry, navigation guard

    A shallow embedding of [src/auth.js] / [src/auth.ts] (the session
    manager), [src/interceptors.ts] (the axios interceptor pair),
    [src/guards.js] (the router guard) and of the option forwarding done by
    [createAuth] in [src/index.ts].

    JavaScript values are an inductive type with the language's truthiness;
    response bodies, route queries and route metas are finite maps from
    property names to values.  The reactive refs of [createAuthCore] are the
    fields of a record; the collaborators (axios, vue-router, the storage
    backend, [sleep], the user's callbacks) are reached through a small
    state-and-exception monad that records every call to them in a trace.
    The answers of axios and of the router come from an environment, so that
    every theorem holds for every behaviour of the server and the router.

    The model runs one operation at a time: nothing else touches the session
    between an [await] and its continuation.  Response bodies are objects, as
    [LoginResponse] and [RefreshResponse] declare them; [maxRetries] is an
    integer; a callback supplied by the application is a call that
    returns. *)

From Stdlib Require Import ZArith Lia.
From stdpp Require Import base option list gmap strings.

Local Open Scope Z_scope.
Local Open Scope string_scope.
Local Open Scope list_scope.

(** ** JavaScript values *)

(** The values that flow through the plugin: a missing property reads as
    [undefined], JSON bodies carry [null], booleans and strings. *)
Inductive JsVal :=
| JUndefined
| JNull
| JBool (b : bool)
| JStr (s : string).

#[global] Instance JsVal_eq_dec : EqDecision JsVal.
Proof. solve_decision. Defined.

(** [if (v)], [!v], the left operand of [||]. *)
Definition truthy (v : JsVal) : bool :=
  match v with
  | JUndefined | JNull => false
  | JBool b => b
  | JStr s => if decide (s = "") then false else true
  end.

(** [a || b]. *)
Definition jor (a b : JsVal) : JsVal := if truthy a then a else b.

Infix "|||" := jor (at level 50, left associativity).

(** Interpolation in a template literal, [`${v}`]. *)
Definition toString (v : JsVal) : string :=
  match v with
  | JUndefined => "undefined"
  | JNull => "null"
  | JBool true => "true"
  | JBool false => "false"
  | JStr s => s
  end.

(** [o[k]] on an object: a missing property is [undefined]. *)
Definition prop (o : gmap string JsVal) (k : string) : JsVal :=
  default JUndefined (o !! k).

(** ** What goes to and comes from the collaborators *)

Inductive Method := GET | POST | OtherMethod (name : string).

(** An axios request config, with the two internal flags of
    [AuthAxiosRequestConfig]. *)
Record Request := {
  method : Method;
  url : JsVal;
  body : option (gmap string JsVal);
  headers : gmap string string;
  _skipAuthRefresh : bool;
  _retry : bool;
}.

Record Response := {
  status : Z;
  data : gmap string JsVal;
}.

(** [AxiosError]: both [config] and [response] are optional. *)
Record AxiosError := {
  config : option Request;
  response : option Response;
}.

(** What a [throw] or a rejected promise carries. *)
Inductive JsError :=
| EAxios (e : AxiosError)
| EError (message : string)
| ETypeError
| ENull.

Inductive HttpOutcome :=
| Resolve (r : Response)
| Reject (e : AxiosError).

(** A vue-router location, as passed to [router.replace] and to [next]. *)
Record Location := {
  loc_name : JsVal;
  loc_path : JsVal;
  loc_query : gmap string JsVal;
  loc_replace : bool;
}.

(** Calls into the collaborators, in the order they are made. *)
Inductive Event :=
| EvHttp (req : Request)
| EvSleep (ms : Z)
| EvReplace (loc : Location)
| EvOnError (message : JsVal) (error : JsError)
| EvOnLogin (user : option (gmap string JsVal))
| EvOnLogout
| EvOnFetchUser (user : gmap string JsVal)
| EvOnSessionExpired
| EvWaitForRef.

(** Lines written to the console. *)
Inductive LogEntry :=
| LogAttempt (attempt maxRetries : Z)
| LogRefreshed
| LogAttemptFailed (attempt maxRetries : Z) (status : option Z)
| LogWaiting (delay : Z)
| LogAllFailed
| LogError (error : JsError)
| LogTokenFound
| LogNoToken
| LogInitError (error : JsError)
| LogInitDone
| WarnLoadingTimeout.

(** ** The storage backend *)

(** [AuthStorage] over a backend state [B].  The source calls every method
    through [?.], so each may be missing. *)
Record AuthStorage (B : Type) := {
  getToken : option (B -> JsVal);
  setToken : option (JsVal -> B -> B);
  removeToken : option (B -> B);
  getRefreshToken : option (B -> JsVal);
  setRefreshToken : option (JsVal -> B -> B);
  removeRefreshToken : option (B -> B);
}.
Arguments getToken {B}.
Arguments setToken {B}.
Arguments removeToken {B}.
Arguments getRefreshToken {B}.
Arguments setRefreshToken {B}.
Arguments removeRefreshToken {B}.

(** [localStorage]: string keys, string values; [getItem] answers [null] for
    a missing key and [setItem] stores the string form of its argument. *)
Definition getItem (k : string) (ls : gmap string string) : JsVal :=
  match ls !! k with Some s => JStr s | None => JNull end.
Definition setItem (k : string) (v : JsVal) (ls : gmap string string)
  : gmap string string := <[k := toString v]> ls.
Definition removeItem (k : string) (ls : gmap string string)
  : gmap string string := delete k ls.

Definition defaultStorage : AuthStorage (gmap string string) := {|
  getToken := Some (getItem "token");
  setToken := Some (setItem "token");
  removeToken := Some (removeItem "token");
  getRefreshToken := Some (getItem "refresh_token");
  setRefreshToken := Some (setItem "refresh_token");
  removeRefreshToken := Some (removeItem "refresh_token");
|}.

(** ** Session state and the world around it *)

(** The five refs of [createAuthCore]. *)
Record AuthState := {
  token : JsVal;
  refreshToken : JsVal;
  user : option (gmap string JsVal);
  loading : bool;
  authenticated : bool;
}.

Record World (B : Type) := {
  auth : AuthState;
  backend : B;
  requests : nat;
  navigations : nat;
  trace : list Event;
  console : list LogEntry;
}.
Arguments auth {B}.
Arguments backend {B}.
Arguments requests {B}.
Arguments navigations {B}.
Arguments trace {B}.
Arguments console {B}.

(** The environment: what the [n]-th call on the axios instance answers,
    whether the [n]-th [router.replace] fails, and what the session state is
    once [waitForRef] settles ([true]: it timed out). *)
Record Env := {
  http_answer : nat -> Request -> HttpOutcome;
  router_answer : nat -> Location -> option JsError;
  wait_answer : AuthState -> bool * AuthState;
}.

Inductive Result (A : Type) :=
| Ok (a : A)
| Thrown (e : JsError).
Arguments Ok {A}.
Arguments Thrown {A}.

(** ** Options *)

Record Endpoints := {
  ep_login : JsVal;
  ep_refresh : JsVal;
  ep_user : JsVal;
}.

(** [AuthCoreOptions].  A callback is opaque user code: the option records
    whether one was supplied, and a call to it is an event of the trace. *)
Record AuthCoreOptions := {
  core_endpoints : option Endpoints;
  core_tokenKey : option string;
  core_refreshTokenKey : option string;
  core_maxRetries : option Z;
  core_onError : bool;
  core_onLogin : bool;
  core_onLogout : bool;
  core_onFetchUser : bool;
  core_loginRouteName : option string;
}.

(** [GuardOptions]. *)
Record GuardOptions := {
  guard_loginRouteName : option string;
  guard_resetPasswordRouteName : option string;
  guard_publicMetaKey : option string;
  guard_authMetaKey : option string;
  guard_defaultRedirect : option string;
}.

(** [AuthOptions], what the application passes to [createAuth]. *)
Record AuthOptions := {
  opt_onSessionExpired : bool;
  opt_onError : bool;
  opt_onLogin : bool;
  opt_onLogout : bool;
  opt_onFetchUser : bool;
  opt_endpoints : option Endpoints;
  opt_tokenKey : option string;
  opt_refreshTokenKey : option string;
  opt_maxRetries : option Z;
  opt_loginRouteName : option string;
  opt_resetPasswordRouteName : option string;
  opt_publicMetaKey : option string;
  opt_authMetaKey : option string;
  opt_defaultRedirect : option string;
}.

(** index.ts, [install], step 1: the object literal handed to
    [createAuthCore].  It has no [loginRouteName] property. *)
Definition createAuth_coreOptions (options : AuthOptions) : AuthCoreOptions := {|
  core_endpoints := opt_endpoints options;
  core_tokenKey := opt_tokenKey options;
  core_refreshTokenKey := opt_refreshTokenKey options;
  core_maxRetries := opt_maxRetries options;
  core_onError := opt_onError options;
  core_onLogin := opt_onLogin options;
  core_onLogout := opt_onLogout options;
  core_onFetchUser := opt_onFetchUser options;
  core_loginRouteName := None;
|}.

(** index.ts, [install], step 4: the object literal handed to
    [setupGuards]. *)
Definition createAuth_guardOptions (options : AuthOptions) : GuardOptions := {|
  guard_loginRouteName := opt_loginRouteName options;
  guard_resetPasswordRouteName := opt_resetPasswordRouteName options;
  guard_publicMetaKey := opt_publicMetaKey options;
  guard_authMetaKey := opt_authMetaKey options;
  guard_defaultRedirect := opt_defaultRedirect options;
|}.

(** The session manager exists twice in the repository, as [auth.js] and as
    [auth.ts].  The two agree line by line except in [logout], in
    [fetchUser] and in the default of [loginRouteName]; the embedding takes
    the file as a parameter and branches at exactly those places. *)
Inductive Source := auth_js | auth_ts.

(** ** Field updates *)

Definition set_token (v : JsVal) (s : AuthState) : AuthState :=
  {| token := v; refreshToken := refreshToken s; user := user s;
     loading := loading s; authenticated := authenticated s |}.
Definition set_refreshToken (v : JsVal) (s : AuthState) : AuthState :=
  {| token := token s; refreshToken := v; user := user s;
     loading := loading s; authenticated := authenticated s |}.
Definition set_user (u : option (gmap string JsVal)) (s : AuthState) : AuthState :=
  {| token := token s; refreshToken := refreshToken s; user := u;
     loading := loading s; authenticated := authenticated s |}.
Definition set_loading (b : bool) (s : AuthState) : AuthState :=
  {| token := token s; refreshToken := refreshToken s; user := user s;
     loading := b; authenticated := authenticated s |}.
Definition set_authenticated (b : bool) (s : AuthState) : AuthState :=
  {| token := token s; refreshToken := refreshToken s; user := user s;
     loading := loading s; authenticated := b |}.

Definition with_auth {B} (s : AuthState) (w : World B) : World B :=
  {| auth := s; backend := backend w; requests := requests w;
     navigations := navigations w; trace := trace w; console := console w |}.
Definition with_backend {B} (b : B) (w : World B) : World B :=
  {| auth := auth w; backend := b; requests := requests w;
     navigations := navigations w; trace := trace w; console := console w |}.
Definition with_event {B} (e : Event) (w : World B) : World B :=
  {| auth := auth w; backend := backend w; requests := requests w;
     navigations := navigations w; trace := trace w ++ [e];
     console := console w |}.
Definition with_request {B} (req : Request) (w : World B) : World B :=
  {| auth := auth w; backend := backend w; requests := S (requests w);
     navigations := navigations w; trace := trace w ++ [EvHttp req];
     console := console w |}.
Definition with_navigation {B} (loc : Location) (w : World B) : World B :=
  {| auth := auth w; backend := backend w; requests := requests w;
     navigations := S (navigations w); trace := trace w ++ [EvReplace loc];
     console := console w |}.
Definition with_log {B} (l : LogEntry) (w : World B) : World B :=
  {| auth := auth w; backend := backend w; requests := requests w;
     navigations := navigations w; trace := trace w;
     console := console w ++ [l] |}.

(** ** The monad: state, exceptions that keep the state, a trace *)

Definition M (B A : Type) : Type := World B -> Result A * World B.

#[global] Instance M_ret {B} : MRet (M B) := λ A a w, (Ok a, w).
#[global] Instance M_bind {B} : MBind (M B) := λ A A' f m w,
  match m w with
  | (Ok a, w') => f a w'
  | (Thrown e, w') => (Thrown e, w')
  end.

Definition throw {B A} (e : JsError) : M B A := λ w, (Thrown e, w).

(** [try { body } catch (error) { handler }] *)
Definition try_catch {B A} (body : M B A) (handler : JsError -> M B A) : M B A :=
  λ w, match body w with
       | (Ok a, w') => (Ok a, w')
       | (Thrown e, w') => handler e w'
       end.

(** [... finally { fin }]: [fin] runs on both exits and keeps the completion
    of the block unless it throws itself. *)
Definition finally {B A} (block : M B A) (fin : M B unit) : M B A :=
  λ w, match block w with
       | (r, w') =>
           match fin w' with
           | (Ok _, w'') => (r, w'')
           | (Thrown e, w'') => (Thrown e, w'')
           end
       end.

Definition get_auth {B} : M B AuthState := λ w, (Ok (auth w), w).
Definition assign {B} (f : AuthState -> AuthState) : M B unit :=
  λ w, (Ok tt, with_auth (f (auth w)) w).
Definition emit {B} (e : Event) : M B unit := λ w, (Ok tt, with_event e w).
Definition log {B} (l : LogEntry) : M B unit := λ w, (Ok tt, with_log l w).

(** [callback?.(...)] *)
Definition callback {B} (supplied : bool) (e : Event) : M B unit :=
  if supplied then emit e else mret tt.

(** [storage.method?.(...)] on the backend: a missing method does nothing. *)
Definition apply_method {B} (method : option (B -> B)) (b : B) : B :=
  match method with
  | Some f => f b
  | None => b
  end.

Definition storage_call {B} (method : option (B -> B)) : M B unit :=
  λ w, (Ok tt, with_backend (apply_method method (backend w)) w).

(** [storage.getToken?.()] and [storage.getRefreshToken?.()]: a missing
    method reads [undefined]. *)
Definition readToken {B} (storage : AuthStorage B) (b : B) : JsVal :=
  default JUndefined ((λ f, f b) <$> getToken storage).
Definition readRefreshToken {B} (storage : AuthStorage B) (b : B) : JsVal :=
  default JUndefined ((λ f, f b) <$> getRefreshToken storage).

(** [sleep(ms)] of utils.ts. *)
Definition sleep {B} (ms : Z) : M B unit := emit (EvSleep ms).

(** ** The collaborators *)

Section Collaborators.
Context {B : Type}.
Variable env : Env.

(** A call on the axios instance: [http(config)]. *)
Definition http (req : Request) : M B Response :=
  λ w, match http_answer env (requests w) req with
       | Resolve r => (Ok r, with_request req w)
       | Reject e => (Thrown (EAxios e), with_request req w)
       end.

(** [http.post(url, data, config)], [config] giving the headers and the
    internal flag. *)
Definition http_post (u : JsVal) (payload : gmap string JsVal)
    (hdrs : gmap string string) (skip : bool) : M B Response :=
  http {| method := POST; url := u; body := Some payload; headers := hdrs;
          _skipAuthRefresh := skip; _retry := false |}.

(** [http.get(url)] *)
Definition http_get (u : JsVal) : M B Response :=
  http {| method := GET; url := u; body := None; headers := ∅;
          _skipAuthRefresh := false; _retry := false |}.

(** [await router.replace(location)] *)
Definition router_replace (loc : Location) : M B unit :=
  λ w, match router_answer env (navigations w) loc with
       | None => (Ok tt, with_navigation loc w)
       | Some e => (Thrown e, with_navigation loc w)
       end.

(** [await waitForRef(auth.loading, v => v === false)] of the guard: the
    session state is what the environment made of it in the meantime. *)
Definition waitForRef : M B unit :=
  λ w, let '(timedOut, s) := wait_answer env (auth w) in
       let w' := with_event EvWaitForRef (with_auth s w) in
       if timedOut then (Thrown (EError "Timeout waiting for ref"), w')
       else (Ok tt, w').

End Collaborators.

(** ** auth.js / auth.ts: [createAuthCore] *)

(** The result of [login]. *)
Record LoginResult := {
  success : bool;
  result_user : option (option (gmap string JsVal));
  result_error : option JsError;
  result_message : option JsVal;
}.

(** How one turn of the refresh loop ends: [return newToken], or the end of
    the [catch] block with [lastError] assigned. *)
Inductive Completion :=
| Return (newToken : JsVal)
| Continue (lastError : JsError).

(** [error.response?.data?.detail] and [...?.message] *)
Definition error_field (e : AxiosError) (k : string) : JsVal :=
  match response e with
  | Some r => prop (data r) k
  | None => JUndefined
  end.

(** [error.response?.status] *)
Definition error_status (e : AxiosError) : option Z := status <$> response e.

Section AuthCore.
Context {B : Type}.
Variable src : Source.
Variable storage : AuthStorage B.
Variable env : Env.
Variable options : AuthCoreOptions.

(** The destructuring of [options], with its defaults. *)
Definition endpoints : Endpoints :=
  default {| ep_login := JStr "/token/"; ep_refresh := JStr "/token/refresh/";
             ep_user := JStr "/contexto-inicial/" |} (core_endpoints options).
Definition tokenKey : string := default "token" (core_tokenKey options).
Definition refreshTokenKey : string :=
  default "refresh" (core_refreshTokenKey options).
Definition maxRetries : Z := default 3 (core_maxRetries options).
Definition loginRouteName : JsVal :=
  match core_loginRouteName options, src with
  | Some name, _ => JStr name
  | None, auth_ts => JStr "login"
  | None, auth_js => JUndefined
  end.

(** The refs as [createAuthCore] creates them. *)
Definition initialState (b : B) : AuthState := {|
  token := readToken storage b ||| JNull;
  refreshToken := readRefreshToken storage b ||| JNull;
  user := None;
  loading := true;
  authenticated := false;
|}.

Definition setTokens (newToken newRefresh : JsVal) : M B unit :=
  assign (set_token newToken);;
  assign (set_refreshToken newRefresh);;
  (if truthy newToken
   then storage_call ((λ f, f newToken) <$> setToken storage)
   else storage_call (removeToken storage));;
  (if truthy newRefresh
   then storage_call ((λ f, f newRefresh) <$> setRefreshToken storage)
   else storage_call (removeRefreshToken storage)).

Definition clearAuth : M B unit :=
  assign (set_token JNull);;
  assign (set_refreshToken JNull);;
  assign (set_user None);;
  assign (set_authenticated false);;
  storage_call (removeToken storage);;
  storage_call (removeRefreshToken storage).

Definition fetchUser : M B (gmap string JsVal) :=
  finally
    (try_catch
       (assign (set_loading true);;
        r ← http_get env (ep_user endpoints);
        assign (set_user (Some (data r)));;
        assign (set_authenticated true);;
        match src with
        | auth_ts => callback (core_onFetchUser options) (EvOnFetchUser (data r))
        | auth_js => mret tt
        end;;
        mret (data r))
       (λ error, clearAuth;; throw error))
    (assign (set_loading false)).

(** [data[tokenKey] || data.access || data.token] *)
Definition accessTokenOf (d : gmap string JsVal) : JsVal :=
  prop d tokenKey ||| prop d "access" ||| prop d "token".

(** [data[refreshTokenKey] || data.refresh || data.refresh_token] *)
Definition refreshOf (d : gmap string JsVal) : JsVal :=
  prop d refreshTokenKey ||| prop d "refresh" ||| prop d "refresh_token".

(** The message of [login]'s [catch] block.  Reading [error.response] of
    [null] is a [TypeError]; any other thrown value has the property or
    reads [undefined]. *)
Definition loginMessage (error : JsError) : M B JsVal :=
  match error with
  | EAxios e =>
      mret (error_field e "detail" ||| error_field e "message"
            ||| JStr "Erro ao realizar login")
  | EError _ | ETypeError => mret (JStr "Erro ao realizar login")
  | ENull => throw ETypeError
  end.

Definition login (credentials : gmap string JsVal) : M B LoginResult :=
  finally
    (try_catch
       (assign (set_loading true);;
        r ← http_post env (ep_login endpoints) credentials
              {["Content-Type" := "application/json"]} false;
        let accessToken := accessTokenOf (data r) in
        let refresh := refreshOf (data r) in
        setTokens accessToken refresh;;
        _ ← fetchUser;
        s ← get_auth;
        callback (core_onLogin options) (EvOnLogin (user s));;
        mret {| success := true; result_user := Some (user s);
                result_error := None; result_message := None |})
       (λ error,
        message ← loginMessage error;
        callback (core_onError options) (EvOnError message error);;
        mret {| success := false; result_user := None;
                result_error := Some error; result_message := Some message |}))
    (assign (set_loading false)).

Definition logout : M B unit :=
  try_catch
    (assign (set_authenticated false);;
     router_replace env
       {| loc_name := loginRouteName; loc_path := JUndefined;
          loc_query := {["logout" := match src with
                                     | auth_js => JBool true
                                     | auth_ts => JStr "true"
                                     end]};
          loc_replace := false |};;
     clearAuth;;
     match src with
     | auth_ts => callback (core_onLogout options) EvOnLogout
     | auth_js => mret tt
     end)
    (λ error, log (LogError error)).

(** One turn of [for (let i = 0; i < maxRetries; i++) { try ... catch ... }]. *)
Definition refreshAttempt (i : Z) : M B Completion :=
  try_catch
    (log (LogAttempt (i + 1) maxRetries);;
     s ← get_auth;
     r ← http_post env (ep_refresh endpoints)
           {[refreshTokenKey := refreshToken s]} ∅ true;
     let newToken := accessTokenOf (data r) in
     s' ← get_auth;
     setTokens newToken (refreshToken s');;
     log LogRefreshed;;
     mret (Return newToken))
    (λ error,
     log (LogAttemptFailed (i + 1) maxRetries
            match error with EAxios e => error_status e | _ => None end);;
     (if bool_decide (i < maxRetries - 1)
      then let delay := 1000 * (i + 1) in
           log (LogWaiting delay);; sleep delay
      else mret tt);;
     mret (Continue error)).

(** The loop, by recursion on the number of turns that [i < maxRetries]
    still admits; [refreshAccessToken] starts it at [Z.to_nat maxRetries]
    with [i = 0] and [lastError = null]. *)
Fixpoint refreshLoop (turns : nat) (i : Z) (lastError : JsError) : M B JsVal :=
  match turns with
  | O =>
      log LogAllFailed;;
      clearAuth;;
      throw lastError
  | S turns' =>
      c ← refreshAttempt i;
      match c with
      | Return newToken => mret newToken
      | Continue error => refreshLoop turns' (i + 1) error
      end
  end.

Definition refreshAccessToken : M B JsVal :=
  s ← get_auth;
  if negb (truthy (refreshToken s))
  then clearAuth;; throw (EError "No refresh token available")
  else refreshLoop (Z.to_nat maxRetries) 0 ENull.

Definition initialize : M B unit :=
  assign (set_loading true);;
  finally
    (try_catch
       (s ← get_auth;
        if truthy (token s)
        then log LogTokenFound;; _ ← fetchUser; mret tt
        else log LogNoToken)
       (λ error, log (LogInitError error);; clearAuth))
    (assign (set_loading false);; log LogInitDone).

Definition setUser (userData : gmap string JsVal) : M B unit :=
  assign (set_user (Some userData)).

End AuthCore.

(** ** interceptors.ts: [setupInterceptors] *)

(** [InterceptorOptions.onSessionExpired] is optional; when present it is a
    call that returns, and what it does is a change of the world: an
    application's own callback, or the default one of [createAuth]. *)
Definition invoke {B} (handler : option (World B -> World B)) : M B unit :=
  λ w, (Ok tt, match handler with
               | Some f => f w
               | None => w
               end).

(** A callback of the application, seen as an event. *)
Definition appSessionExpired {B} : World B -> World B :=
  with_event EvOnSessionExpired.

Section Interceptors.
Context {B : Type}.
Variable storage : AuthStorage B.
Variable env : Env.
Variable options : AuthCoreOptions.
Variable onSessionExpired : option (World B -> World B).

(** [config.headers.Authorization = `Bearer ${t}`] *)
Definition with_authorization (t : JsVal) (req : Request) : Request :=
  {| method := method req; url := url req; body := body req;
     headers := <["Authorization" := "Bearer " +:+ toString t]> (headers req);
     _skipAuthRefresh := _skipAuthRefresh req; _retry := _retry req |}.

(** [originalRequest._retry = true] *)
Definition mark_retry (req : Request) : Request :=
  {| method := method req; url := url req; body := body req;
     headers := headers req; _skipAuthRefresh := _skipAuthRefresh req;
     _retry := true |}.

(** The request interceptor. *)
Definition requestFulfilled (cfg : Request) : M B Request :=
  s ← get_auth;
  if truthy (token s) then mret (with_authorization (token s) cfg)
  else mret cfg.

(** The response interceptor's error handler.  The [try] block returns a
    promise without awaiting it ([return http(originalRequest)],
    [return Promise.reject(error)]), so that promise settles outside the
    [try]: the [catch] sees only a failure of [refreshAccessToken]. *)
Definition responseRejected (error : AxiosError) : M B Response :=
  let originalRequest := config error in
  if bool_decide (error_status error ≠ Some 401)
  then throw (EAxios error)
  else if default false (_skipAuthRefresh <$> originalRequest)
  then throw (EAxios error)
  else if default false (_retry <$> originalRequest)
  then invoke onSessionExpired;; throw (EAxios error)
  else
    s ← get_auth;
    if negb (truthy (refreshToken s))
    then throw (EAxios error)
    else
      let originalRequest := mark_retry <$> originalRequest in
      returned ← try_catch
        (newToken ← refreshAccessToken storage env options;
         mret (match originalRequest with
               | Some req => http env (with_authorization newToken req)
               | None => throw (EAxios error)
               end))
        (λ refreshError,
         invoke onSessionExpired;;
         throw refreshError);
      returned.

End Interceptors.

(** index.ts, [install], step 3: the handler given to [setupInterceptors] is
    the application's, or else one that clears auth and starts, without
    awaiting it, a [replace] to the configured login route (["login"] by
    default) with an [expired] query marker. *)
Definition createAuth_onSessionExpired {B} (storage : AuthStorage B)
    (options : AuthOptions) : option (World B -> World B) :=
  Some (if opt_onSessionExpired options
        then appSessionExpired
        else λ w,
          with_navigation
            {| loc_name := from_option JStr JUndefined
                             (opt_loginRouteName options) ||| JStr "login";
               loc_path := JUndefined;
               loc_query := {["expired" := JStr "true"]};
               loc_replace := false |}
            (clearAuth storage w).2).

(** ** guards.js: [setupGuards] *)

Record RouteRecord := {
  meta : gmap string JsVal;
}.

(** The target of a navigation, [to]. *)
Record Route := {
  path : string;
  fullPath : string;
  name : JsVal;
  query : gmap string JsVal;
  matched : list RouteRecord;
}.

(** The argument of [next]. *)
Inductive NextArg :=
| Proceed
| Redirect (loc : Location).

Section Guards.
Context {B : Type}.
Variable env : Env.
Variable options : GuardOptions.

Definition guardLoginRouteName : string :=
  default "login" (guard_loginRouteName options).
Definition resetPasswordRouteName : string :=
  default "redefinir-senha" (guard_resetPasswordRouteName options).
Definition publicMetaKey : string :=
  default "public" (guard_publicMetaKey options).
Definition authMetaKey : string := default "auth" (guard_authMetaKey options).
Definition defaultRedirect : string :=
  default "/" (guard_defaultRedirect options).

(** The callback registered with [router.beforeEach]; its result is what it
    passes to [next]. *)
Definition beforeEach (to : Route) : M B NextArg :=
  let requiresAuth :=
    existsb (λ record, truthy (prop (meta record) authMetaKey)) (matched to) in
  let isPublic :=
    existsb (λ record, truthy (prop (meta record) publicMetaKey)) (matched to) in
  let isLoginPages :=
    bool_decide (name to = JStr guardLoginRouteName)
    || bool_decide (name to = JStr resetPasswordRouteName) in
  s ← get_auth;
  (if loading s
   then try_catch (waitForRef env) (λ e, log WarnLoadingTimeout)
   else mret tt);;
  if truthy (prop (query to) "logout")
  then
    let cleanQuery := delete "logout" (query to) in
    mret (Redirect {| loc_name := JUndefined; loc_path := JStr (path to);
                      loc_query := cleanQuery; loc_replace := true |})
  else
    s ← get_auth;
    if isLoginPages && authenticated s
    then
      let redirectPath := prop (query to) "redirect" ||| JStr defaultRedirect in
      mret (Redirect {| loc_name := JUndefined; loc_path := redirectPath;
                        loc_query := ∅; loc_replace := true |})
    else if requiresAuth && negb (authenticated s)
    then
      mret (Redirect {| loc_name := JStr guardLoginRouteName;
                        loc_path := JUndefined;
                        loc_query := {["redirect" := JStr (fullPath to)]};
                        loc_replace := false |})
    else mret Proceed.

End Guards.

(** ** Drivers and reference definitions used by the statements *)

(** A storage backend that behaves as two independent slots: what was set is
    read back, a removed slot reads [null], and neither slot disturbs the
    other.  String tokens are stored as they are. *)
Record StorageLaws {B} (storage : AuthStorage B) : Prop := {
  read_set_token : ∀ s b,
    readToken storage
      (apply_method ((λ f, f (JStr s)) <$> setToken storage) b) = JStr s;
  read_remove_token : ∀ b,
    readToken storage (apply_method (removeToken storage) b) = JNull;
  read_set_refresh : ∀ s b,
    readRefreshToken storage
      (apply_method ((λ f, f (JStr s)) <$> setRefreshToken storage) b) = JStr s;
  read_remove_refresh : ∀ b,
    readRefreshToken storage (apply_method (removeRefreshToken storage) b)
    = JNull;
  token_set_refresh : ∀ v b,
    readToken storage
      (apply_method ((λ f, f v) <$> setRefreshToken storage) b)
    = readToken storage b;
  token_remove_refresh : ∀ b,
    readToken storage (apply_method (removeRefreshToken storage) b)
    = readToken storage b;
  refresh_set_token : ∀ v b,
    readRefreshToken storage (apply_method ((λ f, f v) <$> setToken storage) b)
    = readRefreshToken storage b;
  refresh_remove_token : ∀ b,
    readRefreshToken storage (apply_method (removeToken storage) b)
    = readRefreshToken storage b;
}.

(** The arguments [setTokens] is typed for: [string | null], and the
    [undefined] of a missing response field. *)
Definition tokenValue (v : JsVal) : Prop :=
  match v with
  | JBool _ => False
  | _ => True
  end.

(** A sequence of [setTokens] calls, in order. *)
Fixpoint setTokensAll {B} (storage : AuthStorage B)
    (calls : list (JsVal * JsVal)) : M B unit :=
  match calls with
  | [] => mret tt
  | (t, r) :: rest => setTokens storage t r;; setTokensAll storage rest
  end.

(** ** The requests the session manager issues *)

Definition userRequest (options : AuthCoreOptions) : Request :=
  {| method := GET; url := ep_user (endpoints options); body := None;
     headers := ∅; _skipAuthRefresh := false; _retry := false |}.

Definition loginRequest (options : AuthCoreOptions)
    (credentials : gmap string JsVal) : Request :=
  {| method := POST; url := ep_login (endpoints options);
     body := Some credentials;
     headers := {["Content-Type" := "application/json"]};
     _skipAuthRefresh := false; _retry := false |}.

Definition refreshRequest (options : AuthCoreOptions) (rt : JsVal) : Request :=
  {| method := POST; url := ep_refresh (endpoints options);
     body := Some {[refreshTokenKey options := rt]};
     headers := ∅; _skipAuthRefresh := true; _retry := false |}.

(** The events of a supplied callback. *)
Definition called (supplied : bool) (e : Event) : list Event :=
  if supplied then [e] else [].

(** Whether this source file invokes [onFetchUser] / [onLogout] at all. *)
Definition invokes_callbacks (src : Source) : bool :=
  match src with
  | auth_ts => true
  | auth_js => false
  end.


(** [login]'s message for an axios error. *)
Definition messageOf (e : AxiosError) : JsVal :=
  error_field e "detail" ||| error_field e "message"
  ||| JStr "Erro ao realizar login".

(** The backend after [setTokens t r]. *)
Definition storeTokens {B} (storage : AuthStorage B) (t r : JsVal) (b : B) : B :=
  apply_method
    (if truthy r then (λ f, f r) <$> setRefreshToken storage
     else removeRefreshToken storage)
    (apply_method
       (if truthy t then (λ f, f t) <$> setToken storage
        else removeToken storage) b).

(** The backend after [clearAuth]. *)
Definition dropTokens {B} (storage : AuthStorage B) (b : B) : B :=
  apply_method (removeRefreshToken storage)
    (apply_method (removeToken storage) b).


(** [k] failed attempts, numbered from [first], each followed by its wait. *)
Definition backoff (req : Request) (first k : nat) : list Event :=
  flat_map (λ j, [EvHttp req; EvSleep (1000 * Z.of_nat j)]) (seq first k).


(** The session state after [clearAuth]. *)
Definition cleared (s : AuthState) : AuthState :=
  {| token := JNull; refreshToken := JNull; user := None;
     loading := loading s; authenticated := false |}.


(** ** Concrete inputs for the examples *)

(** A freshly installed plugin over an empty [localStorage]. *)
Definition emptyWorld : World (gmap string string) :=
  {| auth := initialState defaultStorage ∅; backend := ∅;
     requests := 0; navigations := 0; trace := []; console := [] |}.

(** A session holding the access token ["old"] and the refresh token ["R"],
    in memory and in [localStorage]. *)
Definition sessionWorld : World (gmap string string) :=
  {| auth := {| token := JStr "old"; refreshToken := JStr "R";
                user := Some {["name" := JStr "ana"]};
                loading := false; authenticated := true |};
     backend := {["token" := "old"; "refresh_token" := "R"]};
     requests := 0; navigations := 0; trace := []; console := [] |}.

(** All options left to their defaults, no callback supplied. *)
Definition defaultOptions : AuthCoreOptions :=
  {| core_endpoints := None; core_tokenKey := None;
     core_refreshTokenKey := None; core_maxRetries := None;
     core_onError := false; core_onLogin := false; core_onLogout := false;
     core_onFetchUser := false; core_loginRouteName := None |}.

(** The same with every callback supplied. *)
Definition callbackOptions : AuthCoreOptions :=
  {| core_endpoints := None; core_tokenKey := None;
     core_refreshTokenKey := None; core_maxRetries := None;
     core_onError := true; core_onLogin := true; core_onLogout := true;
     core_onFetchUser := true; core_loginRouteName := None |}.

Definition unauthorized : AxiosError :=
  {| config := None;
     response := Some {| status := 401;
                         data := {["detail" := JStr "Token expired"]} |} |}.

Definition networkError : AxiosError :=
  {| config := None; response := None |}.

(** A server and a router given by the list of their successive answers;
    past the end of the list the network is down and navigation succeeds. *)
Definition scripted (answers : list HttpOutcome)
    (navigation : list (option JsError)) : Env :=
  {| http_answer := λ n _, default (Reject networkError) (answers !! n);
     router_answer := λ n _, default None (navigation !! n);
     wait_answer := λ s, (false, set_loading false s) |}.

(** The location [logout] navigates to. *)
Definition logoutTarget (src : Source) (options : AuthCoreOptions) : Location :=
  {| loc_name := loginRouteName src options; loc_path := JUndefined;
     loc_query := {["logout" := match src with
                                | auth_js => JBool true
                                | auth_ts => JStr "true"
                                end]};
     loc_replace := false |}.

(** An application configuration naming its own login route and supplying
    the logout and fetch-user callbacks. *)
Definition signinOptions : AuthOptions :=
  {| opt_onSessionExpired := false; opt_onError := false;
     opt_onLogin := false; opt_onLogout := true; opt_onFetchUser := true;
     opt_endpoints := None; opt_tokenKey := None;
     opt_refreshTokenKey := None; opt_maxRetries := None;
     opt_loginRouteName := Some "signin";
     opt_resetPasswordRouteName := None; opt_publicMetaKey := None;
     opt_authMetaKey := None; opt_defaultRedirect := None |}.

(** A 401 answered to a request whose config reached the interceptor. *)
Definition unauthorizedFor (req : Request) : AxiosError :=
  {| config := Some req;
     response := Some {| status := 401; data := ∅ |} |}.

Definition profileRequest : Request :=
  {| method := GET; url := JStr "/profile/"; body := None; headers := ∅;
     _skipAuthRefresh := false; _retry := false |}.

(** The world after [onSessionExpired?.()]. *)
Definition expired {B} (onSessionExpired : option (World B -> World B))
    (w : World B) : World B :=
  match onSessionExpired with
  | Some f => f w
  | None => w
  end.

(** Guard options left to their defaults. *)
Definition defaultGuardOptions : GuardOptions :=
  {| guard_loginRouteName := None; guard_resetPasswordRouteName := None;
     guard_publicMetaKey := None; guard_authMetaKey := None;
     guard_defaultRedirect := None |}.

(** A protected route, [/reports?year=2024], below a layout record. *)
Definition reportsRoute : Route :=
  {| path := "/reports"; fullPath := "/reports?year=2024";
     name := JStr "reports";
     query := {["year" := JStr "2024"]};
     matched := [ {| meta := ∅ |}; {| meta := {["auth" := JBool true]} |} ] |}.

(** A world whose initialisation is over and whose session is anonymous. *)
Definition anonymousWorld : World (gmap string string) :=
  {| auth := {| token := JNull; refreshToken := JNull; user := None;
                loading := false; authenticated := false |};
     backend := ∅; requests := 0; navigations := 0; trace := [];
     console := [] |}.

(** ** interceptors.js: the JavaScript sibling of the response interceptor *)

Section InterceptorsJs.
Context {B : Type}.
Variable storage : AuthStorage B.
Variable env : Env.
Variable options : AuthCoreOptions.
Variable onSessionExpired : option (World B -> World B).

(** interceptors.js reads [originalRequest._skipAuthRefresh] without [?.]:
    on an error that has no [config] the read is a [TypeError], which the
    [async] handler turns into its rejection. *)
Definition responseRejected_js (error : AxiosError) : M B Response :=
  let originalRequest := config error in
  if bool_decide (error_status error ≠ Some 401)
  then throw (EAxios error)
  else
    match originalRequest with
    | None => throw ETypeError
    | Some originalRequest =>
        if _skipAuthRefresh originalRequest
        then throw (EAxios error)
        else if _retry originalRequest
        then invoke onSessionExpired;; throw (EAxios error)
        else
          s ← get_auth;
          if negb (truthy (refreshToken s))
          then throw (EAxios error)
          else
            let originalRequest := mark_retry originalRequest in
            returned ← try_catch
              (newToken ← refreshAccessToken storage env options;
               mret (http env (with_authorization newToken originalRequest)))
              (λ refreshError,
               invoke onSessionExpired;;
               throw refreshError);
            returned
    end.

End InterceptorsJs.

(** ** utils.ts: [waitForRef] *)

Module Utils.

(** What reaches the promise of [waitForRef] once it is pending: the watcher
    is called with a new value of the ref, or the timer fires. *)
Inductive Tick (T : Type) :=
| Changed (newValue : T)
| TimerFired.
Arguments Changed {T}.
Arguments TimerFired {T}.

Inductive Settled (T : Type) :=
| Resolved (value : T)
| Rejected (error : JsError).
Arguments Resolved {T}.
Arguments Rejected {T}.

(** The pending promise: the first satisfying value stops the watcher,
    clears the timer and resolves; the timer stops the watcher and rejects;
    whatever comes after either is not looked at.  [None]: still pending. *)
Fixpoint watching {T} (predicate : T -> bool) (ticks : list (Tick T))
  : option (Settled T) :=
  match ticks with
  | [] => None
  | Changed newValue :: rest =>
      if predicate newValue then Some (Resolved newValue)
      else watching predicate rest
  | TimerFired :: _ => Some (Rejected (EError "Timeout waiting for ref"))
  end.

(** [waitForRef(ref, predicate, timeout)]: resolved at once if the current
    value satisfies the predicate; otherwise the timer is set and the
    watcher installed with [immediate: true], which calls it once with the
    current value. *)
Definition waitForRef {T} (current : T) (predicate : T -> bool)
    (ticks : list (Tick T)) : option (Settled T) :=
  if predicate current then Some (Resolved current)
  else watching predicate (Changed current :: ticks).

End Utils.

(** A tick the pending promise of [waitForRef] lets pass: a value that
    fails the predicate. *)
Definition passes {T} (predicate : T -> bool) (tick : Utils.Tick T) : Prop :=
  ∃ value, tick = Utils.Changed value ∧ predicate value = false.

(** ** More drivers and reference definitions *)

(** The methods of the instance [createAuthCore] returns. *)
Inductive Operation :=
| DoLogin (credentials : gmap string JsVal)
| DoLogout
| DoFetchUser
| DoRefreshAccessToken
| DoClearAuth
| DoInitialize
| DoSetUser (userData : gmap string JsVal)
| DoSetTokens (newToken newRefresh : JsVal).

(** One call, whatever it returns or throws. *)
Definition perform {B} (src : Source) (storage : AuthStorage B) (env : Env)
    (options : AuthCoreOptions) (op : Operation) (w : World B) : World B :=
  match op with
  | DoLogin credentials => (login src storage env options credentials w).2
  | DoLogout => (logout src storage env options w).2
  | DoFetchUser => (fetchUser src storage env options w).2
  | DoRefreshAccessToken => (refreshAccessToken storage env options w).2
  | DoClearAuth => (clearAuth storage w).2
  | DoInitialize => (initialize src storage env options w).2
  | DoSetUser userData => (setUser userData w).2
  | DoSetTokens newToken newRefresh =>
      (setTokens storage newToken newRefresh w).2
  end.

(** A sequence of calls, each started when the one before is over. *)
Definition performAll {B} (src : Source) (storage : AuthStorage B) (env : Env)
    (options : AuthCoreOptions) (ops : list Operation) (w : World B)
  : World B :=
  foldl (λ w op, perform src storage env options op w) w ops.

(** A signed-in session has a user. *)
Definition userKnown (s : AuthState) : Prop :=
  authenticated s = true -> user s ≠ None.

(** Memory and storage agree on both tokens, an absent (falsy) value on one
    side matching an absent value on the other. *)
Definition inSync {B} (storage : AuthStorage B) (w : World B) : Prop :=
  tokenValue (token (auth w))
  ∧ tokenValue (refreshToken (auth w))
  ∧ readToken storage (backend w) ||| JNull = token (auth w) ||| JNull
  ∧ readRefreshToken storage (backend w) ||| JNull
    = refreshToken (auth w) ||| JNull.

(** Every token the server sends satisfies [P]; every token handed to
    [setTokens] by the application does. *)
Definition serverTokens (P : JsVal -> Prop) (env : Env)
    (options : AuthCoreOptions) : Prop :=
  ∀ n req r, http_answer env n req = Resolve r ->
    P (accessTokenOf options (data r)) ∧ P (refreshOf options (data r)).

Definition argumentTokens (P : JsVal -> Prop) (op : Operation) : Prop :=
  match op with
  | DoSetTokens newToken newRefresh => P newToken ∧ P newRefresh
  | _ => True
  end.

(** What a call can do to the session and its storage, as steps on the pair
    of the refs and the backend: the two flags move, a user is set, a pair
    of tokens is stored, the access token is renewed, all is cleared. *)
Inductive SessionStep {B} (P : JsVal -> Prop) (storage : AuthStorage B)
  : AuthState * B -> AuthState * B -> Prop :=
| step_loading v s b :
    SessionStep P storage (s, b) (set_loading v s, b)
| step_signed_out s b :
    SessionStep P storage (s, b) (set_authenticated false s, b)
| step_signed_in u s b :
    SessionStep P storage (s, b)
      (set_authenticated true (set_user (Some u) s), b)
| step_user u s b :
    SessionStep P storage (s, b) (set_user (Some u) s, b)
| step_stored t r s b :
    P t -> P r ->
    SessionStep P storage (s, b)
      (set_refreshToken r (set_token t s), storeTokens storage t r b)
| step_renewed t s b :
    P t ->
    SessionStep P storage (s, b)
      (set_refreshToken (refreshToken s) (set_token t s),
       storeTokens storage t (refreshToken s) b)
| step_cleared s b :
    SessionStep P storage (s, b) (cleared s, dropTokens storage b).

(** The milliseconds slept in a trace, and the requests sent in it. *)
Fixpoint waited (events : list Event) : Z :=
  match events with
  | [] => 0
  | EvSleep ms :: rest => ms + waited rest
  | _ :: rest => waited rest
  end.

(** The decision of the guard for a target and a session. *)
Definition guardDecision (options : GuardOptions) (to : Route)
    (isAuthenticated : bool) : NextArg :=
  if truthy (prop (query to) "logout")
  then Redirect {| loc_name := JUndefined; loc_path := JStr (path to);
                   loc_query := delete "logout" (query to);
                   loc_replace := true |}
  else if (bool_decide (name to = JStr (guardLoginRouteName options))
           || bool_decide (name to = JStr (resetPasswordRouteName options)))
          && isAuthenticated
  then Redirect {| loc_name := JUndefined;
                   loc_path := prop (query to) "redirect"
                               ||| JStr (defaultRedirect options);
                   loc_query := ∅; loc_replace := true |}
  else if existsb (λ record,
                     truthy (prop (meta record) (authMetaKey options)))
            (matched to)
          && negb isAuthenticated
  then Redirect {| loc_name := JStr (guardLoginRouteName options);
                   loc_path := JUndefined;
                   loc_query := {["redirect" := JStr (fullPath to)]};
                   loc_replace := false |}
  else Proceed.

(** The longest the refresh loop can sleep from turn [i] with [turns] turns
    ahead: [1000 * (i + 1) + ... + 1000 * (i + turns - 1)]. *)
Definition maxWait (i : Z) (turns : nat) : Z :=
  match turns with
  | O => 0
  | S t => 500 * Z.of_nat t * (2 * i + Z.of_nat t + 1)
  end.

(** An event of the refresh loop: the refresh request, or a sleep. *)
Definition refreshEvent (req : Request) (e : Event) : Prop :=
  e = EvHttp req ∨ ∃ ms, e = EvSleep ms.

(** ** Running the monad *)

Lemma run_bind {B A A'} (m : M B A) (f : A -> M B A') (w : World B) :
  (m ≫= f) w = match m w with
               | (Ok a, w') => f a w'
               | (Thrown e, w') => (Thrown e, w')
               end.
Proof. reflexivity. Qed.

(** ** The token store *)

Lemma setTokens_run {B} (storage : AuthStorage B) t r (w : World B) :
  setTokens storage t r w =
  (Ok tt,
   with_backend
     (apply_method
        (if truthy r then (λ f, f r) <$> setRefreshToken storage
         else removeRefreshToken storage)
        (apply_method
           (if truthy t then (λ f, f t) <$> setToken storage
            else removeToken storage)
           (backend w)))
     (with_auth (set_refreshToken r (set_token t (auth w))) w)).
Proof. unfold setTokens. destruct (truthy t), (truthy r); reflexivity. Qed.

Lemma clearAuth_run {B} (storage : AuthStorage B) (w : World B) :
  clearAuth storage w =
  (Ok tt,
   with_backend
     (apply_method (removeRefreshToken storage)
        (apply_method (removeToken storage) (backend w)))
     (with_auth
        {| token := JNull; refreshToken := JNull; user := None;
           loading := loading (auth w); authenticated := false |} w)).
Proof. reflexivity. Qed.

Lemma defaultStorage_laws : StorageLaws defaultStorage.
Proof.
  split; intros; unfold readToken, readRefreshToken, getItem, setItem,
    removeItem; cbn; unfold getItem, setItem, removeItem.
  - by rewrite lookup_insert_eq.
  - by rewrite lookup_delete_eq.
  - by rewrite lookup_insert_eq.
  - by rewrite lookup_delete_eq.
  - by rewrite lookup_insert_ne.
  - by rewrite lookup_delete_ne.
  - by rewrite lookup_insert_ne.
  - by rewrite lookup_delete_ne.
Qed.

Lemma truthy_string v : tokenValue v -> truthy v = true -> ∃ s, v = JStr s.
Proof. destruct v; cbn; try done. eauto. Qed.

(** What the storage holds after one [setTokens], read through the storage's
    own getters. *)
Lemma setTokens_stored {B} (storage : AuthStorage B) t r (w : World B) :
  StorageLaws storage -> tokenValue t -> tokenValue r ->
  let w' := (setTokens storage t r w).2 in
  readToken storage (backend w') = t ||| JNull
  ∧ readRefreshToken storage (backend w') = r ||| JNull.
Proof.
  intros L Ht Hr. rewrite setTokens_run. cbn. unfold jor.
  destruct (truthy t) eqn:Et, (truthy r) eqn:Er.
  - destruct (truthy_string t Ht Et) as [a ->].
    destruct (truthy_string r Hr Er) as [c ->].
    by rewrite (token_set_refresh _ L), (read_set_token _ L),
      (read_set_refresh _ L).
  - destruct (truthy_string t Ht Et) as [a ->].
    by rewrite (token_remove_refresh _ L), (read_set_token _ L),
      (read_remove_refresh _ L).
  - destruct (truthy_string r Hr Er) as [c ->].
    by rewrite (token_set_refresh _ L), (read_remove_token _ L),
      (read_set_refresh _ L).
  - by rewrite (token_remove_refresh _ L), (read_remove_token _ L),
      (read_remove_refresh _ L).
Qed.

Lemma setTokensAll_app {B} (storage : AuthStorage B) calls t r (w : World B) :
  setTokensAll storage (calls ++ [(t, r)]) w =
  setTokens storage t r (setTokensAll storage calls w).2.
Proof.
  revert w. induction calls as [|[t0 r0] calls IH]; intros w.
  - cbn [app setTokensAll]. rewrite run_bind, !setTokens_run. reflexivity.
  - cbn [app setTokensAll]. rewrite !run_bind, setTokens_run.
    apply IH.
Qed.


(** Unfolding the monad and the collaborators, for symbolic runs. *)
Ltac run :=
  cbv beta delta [mbind M_bind mret M_ret finally try_catch throw assign
                  callback emit log sleep storage_call get_auth
                  http_get http_post http router_replace];
  cbn.

Section FetchUser.
Context {B : Type}.
Variable src : Source.
Variable storage : AuthStorage B.
Variable env : Env.
Variable options : AuthCoreOptions.

Lemma fetchUser_resolved (w : World B) r :
  http_answer env (requests w) (userRequest options) = Resolve r ->
  fetchUser src storage env options w =
  (Ok (data r),
   {| auth := {| token := token (auth w);
                 refreshToken := refreshToken (auth w);
                 user := Some (data r); loading := false;
                 authenticated := true |};
      backend := backend w;
      requests := S (requests w);
      navigations := navigations w;
      trace := (trace w ++ [EvHttp (userRequest options)])
               ++ called (invokes_callbacks src && core_onFetchUser options)
                    (EvOnFetchUser (data r));
      console := console w |}).
Proof.
  intros H. unfold fetchUser. run. fold (userRequest options).
  rewrite H. destruct src, (core_onFetchUser options); run;
    rewrite ?app_nil_r; reflexivity.
Qed.

Lemma fetchUser_rejected (w : World B) e :
  http_answer env (requests w) (userRequest options) = Reject e ->
  fetchUser src storage env options w =
  (Thrown (EAxios e),
   {| auth := {| token := JNull; refreshToken := JNull; user := None;
                 loading := false; authenticated := false |};
      backend := apply_method (removeRefreshToken storage)
                   (apply_method (removeToken storage) (backend w));
      requests := S (requests w);
      navigations := navigations w;
      trace := trace w ++ [EvHttp (userRequest options)];
      console := console w |}).
Proof.
  intros H. unfold fetchUser. run. fold (userRequest options).
  rewrite H. reflexivity.
Qed.

End FetchUser.


Section Login.
Context {B : Type}.
Variable src : Source.
Variable storage : AuthStorage B.
Variable env : Env.
Variable options : AuthCoreOptions.

Lemma login_post_rejected (w : World B) credentials e :
  http_answer env (requests w) (loginRequest options credentials) = Reject e ->
  login src storage env options credentials w =
  (Ok {| success := false; result_user := None;
         result_error := Some (EAxios e);
         result_message := Some (messageOf e) |},
   {| auth := set_loading false (auth w);
      backend := backend w;
      requests := S (requests w);
      navigations := navigations w;
      trace := (trace w ++ [EvHttp (loginRequest options credentials)])
               ++ called (core_onError options)
                    (EvOnError (messageOf e) (EAxios e));
      console := console w |}).
Proof.
  intros H. unfold login. run. fold (loginRequest options credentials).
  rewrite H. unfold loginMessage. fold (messageOf e).
  destruct (core_onError options); run; rewrite ?app_nil_r; reflexivity.
Qed.

Lemma login_fetch_rejected (w : World B) credentials r e :
  http_answer env (requests w) (loginRequest options credentials) = Resolve r ->
  http_answer env (S (requests w)) (userRequest options) = Reject e ->
  login src storage env options credentials w =
  (Ok {| success := false; result_user := None;
         result_error := Some (EAxios e);
         result_message := Some (messageOf e) |},
   {| auth := {| token := JNull; refreshToken := JNull; user := None;
                 loading := false; authenticated := false |};
      backend :=
        dropTokens storage
          (storeTokens storage (accessTokenOf options (data r))
             (refreshOf options (data r)) (backend w));
      requests := S (S (requests w));
      navigations := navigations w;
      trace := ((trace w ++ [EvHttp (loginRequest options credentials)])
                ++ [EvHttp (userRequest options)])
               ++ called (core_onError options)
                    (EvOnError (messageOf e) (EAxios e));
      console := console w |}).
Proof.
  intros H1 H2. unfold login.
  cbv beta delta [mbind M_bind finally try_catch http_post http].
  cbn. fold (loginRequest options credentials). rewrite H1.
  cbv beta delta [mbind M_bind]. rewrite setTokens_run.
  cbv beta iota. erewrite fetchUser_rejected by exact H2.
  unfold loginMessage. fold (messageOf e).
  destruct (core_onError options); run; rewrite ?app_nil_r; reflexivity.
Qed.

Lemma login_succeeds (w : World B) credentials r u :
  http_answer env (requests w) (loginRequest options credentials) = Resolve r ->
  http_answer env (S (requests w)) (userRequest options) = Resolve u ->
  login src storage env options credentials w =
  (Ok {| success := true; result_user := Some (Some (data u));
         result_error := None; result_message := None |},
   {| auth := {| token := accessTokenOf options (data r);
                 refreshToken := refreshOf options (data r);
                 user := Some (data u); loading := false;
                 authenticated := true |};
      backend :=
        storeTokens storage (accessTokenOf options (data r))
          (refreshOf options (data r)) (backend w);
      requests := S (S (requests w));
      navigations := navigations w;
      trace := (((trace w ++ [EvHttp (loginRequest options credentials)])
                 ++ [EvHttp (userRequest options)])
                ++ called (invokes_callbacks src && core_onFetchUser options)
                     (EvOnFetchUser (data u)))
               ++ called (core_onLogin options) (EvOnLogin (Some (data u)));
      console := console w |}).
Proof.
  intros H1 H2. unfold login.
  cbv beta delta [mbind M_bind finally try_catch http_post http].
  cbn. fold (loginRequest options credentials). rewrite H1.
  cbv beta delta [mbind M_bind]. rewrite setTokens_run.
  cbv beta iota. erewrite fetchUser_resolved by exact H2.
  destruct (core_onLogin options); run; rewrite ?app_nil_r; reflexivity.
Qed.

End Login.

(** ** The refresh loop *)


Lemma backoff_S req first k :
  backoff req first (S k) =
  [EvHttp req; EvSleep (1000 * Z.of_nat first)] ++ backoff req (S first) k.
Proof. reflexivity. Qed.

(** The recursion of [refreshLoop] follows the test of the [for]: with
    [done] turns behind and [turns] ahead of [maxRetries] in all, another
    turn is taken exactly when [i < maxRetries] holds for [i = done]; and
    [Z.to_nat maxRetries] turns are ahead at [i = 0]. *)
Lemma refreshLoop_guard (maxRetries : Z) (done turns : nat) :
  Z.of_nat (done + turns) = maxRetries ->
  (turns ≠ 0%nat ↔ Z.of_nat done < maxRetries).
Proof. lia. Qed.

Lemma refreshLoop_start (maxRetries : Z) :
  (Z.to_nat maxRetries ≠ 0%nat ↔ 0 < maxRetries).
Proof. lia. Qed.

Section Refresh.
Context {B : Type}.
Variable storage : AuthStorage B.
Variable env : Env.
Variable options : AuthCoreOptions.

Lemma refreshAttempt_resolved (w : World B) i r :
  http_answer env (requests w)
    (refreshRequest options (refreshToken (auth w))) = Resolve r ->
  refreshAttempt storage env options i w =
  (Ok (Return (accessTokenOf options (data r))),
   {| auth := set_refreshToken (refreshToken (auth w))
                (set_token (accessTokenOf options (data r)) (auth w));
      backend := storeTokens storage (accessTokenOf options (data r))
                   (refreshToken (auth w)) (backend w);
      requests := S (requests w);
      navigations := navigations w;
      trace := trace w
               ++ [EvHttp (refreshRequest options (refreshToken (auth w)))];
      console := (console w ++ [LogAttempt (i + 1) (maxRetries options)])
                 ++ [LogRefreshed] |}).
Proof.
  intros H. unfold refreshAttempt.
  cbv beta delta [mbind M_bind try_catch http_post http log get_auth].
  cbn. fold (refreshRequest options (refreshToken (auth w))). rewrite H.
  cbv beta iota. rewrite setTokens_run. reflexivity.
Qed.

Lemma refreshAttempt_rejected (w : World B) i e :
  http_answer env (requests w)
    (refreshRequest options (refreshToken (auth w))) = Reject e ->
  refreshAttempt storage env options i w =
  (Ok (Continue (EAxios e)),
   {| auth := auth w;
      backend := backend w;
      requests := S (requests w);
      navigations := navigations w;
      trace := (trace w
                ++ [EvHttp (refreshRequest options (refreshToken (auth w)))])
               ++ (if bool_decide (i < maxRetries options - 1)
                   then [EvSleep (1000 * (i + 1))] else []);
      console := ((console w ++ [LogAttempt (i + 1) (maxRetries options)])
                  ++ [LogAttemptFailed (i + 1) (maxRetries options)
                        (error_status e)])
                 ++ (if bool_decide (i < maxRetries options - 1)
                     then [LogWaiting (1000 * (i + 1))] else []) |}).
Proof.
  intros H. unfold refreshAttempt.
  cbv beta delta [mbind M_bind try_catch http_post http log get_auth].
  cbn. fold (refreshRequest options (refreshToken (auth w))). rewrite H.
  destruct (bool_decide (i < maxRetries options - 1)); run;
    rewrite ?app_nil_r; reflexivity.
Qed.

(** [k] failed attempts with attempts remaining after each: the loop is then
    at its turn [done + k], the session untouched, [k] requests sent and each
    followed by its wait. *)
Lemma refreshLoop_failures (errs : nat -> AxiosError) k :
  ∀ done turns lastError (w : World B),
    Z.of_nat (done + turns) = maxRetries options ->
    (k < turns)%nat ->
    (∀ j, (j < k)%nat ->
       http_answer env (requests w + j)%nat
         (refreshRequest options (refreshToken (auth w)))
       = Reject (errs (done + j)%nat)) ->
    ∃ w' lastError',
      refreshLoop storage env options turns (Z.of_nat done) lastError w =
      refreshLoop storage env options (turns - k) (Z.of_nat (done + k))
        lastError' w'
      ∧ auth w' = auth w ∧ backend w' = backend w
      ∧ requests w' = (requests w + k)%nat
      ∧ navigations w' = navigations w
      ∧ trace w' =
        trace w ++ backoff (refreshRequest options (refreshToken (auth w)))
                     (S done) k.
Proof.
  induction k as [|k IH]; intros done turns lastError w Hmax Hk Hans.
  - exists w, lastError. rewrite Nat.sub_0_r, !Nat.add_0_r.
    unfold backoff. cbn. rewrite app_nil_r. done.
  - destruct turns as [|turns]; [lia|].
    assert (H0 := Hans O ltac:(lia)). rewrite !Nat.add_0_r in H0.
    pose proof (refreshAttempt_rejected w (Z.of_nat done) _ H0) as Hrun.
    rewrite bool_decide_eq_true_2 in Hrun by lia.
    match type of Hrun with _ = (_, ?W) => remember W as w1 eqn:Ew1 end.
    assert (auth w1 = auth w) as Ha1 by (by rewrite Ew1).
    assert (backend w1 = backend w) as Hb1 by (by rewrite Ew1).
    assert (requests w1 = S (requests w)) as Hr1 by (by rewrite Ew1).
    assert (navigations w1 = navigations w) as Hn1 by (by rewrite Ew1).
    assert (trace w1 =
            trace w ++ [EvHttp (refreshRequest options (refreshToken (auth w)));
                        EvSleep (1000 * Z.of_nat (S done))]) as Ht1.
    { rewrite Ew1. cbn. rewrite <- app_assoc. cbn. do 4 f_equal. lia. }
    clear Ew1.
    destruct (IH (S done) turns (EAxios (errs done)) w1) as
      (w' & le' & Heq & Ha & Hb & Hr & Hn & Ht).
    + lia.
    + lia.
    + intros j Hj. rewrite Hr1, Ha1.
      specialize (Hans (S j) ltac:(lia)).
      replace (S (requests w) + j)%nat with (requests w + S j)%nat by lia.
      replace (S done + j)%nat with (done + S j)%nat by lia. exact Hans.
    + exists w', le'. repeat split; try congruence.
      * cbn [refreshLoop]. rewrite run_bind, Hrun.
        replace (Z.of_nat done + 1) with (Z.of_nat (S done)) by lia.
        rewrite Heq. f_equal. f_equal. lia.
      * rewrite Hr, Hr1. lia.
      * rewrite Ht, Ht1, Ha1, backoff_S. by rewrite <- app_assoc.
Qed.

End Refresh.


Section RefreshOutcomes.
Context {B : Type}.
Variable storage : AuthStorage B.
Variable env : Env.
Variable options : AuthCoreOptions.

Lemma refreshLoop_exhausted lastError (w : World B) i :
  refreshLoop storage env options 0 i lastError w =
  (Thrown lastError,
   with_backend (dropTokens storage (backend w))
     (with_auth (cleared (auth w)) (with_log LogAllFailed w))).
Proof. reflexivity. Qed.

Lemma refreshAccessToken_no_token (w : World B) :
  truthy (refreshToken (auth w)) = false ->
  refreshAccessToken storage env options w =
  (Thrown (EError "No refresh token available"),
   with_backend (dropTokens storage (backend w))
     (with_auth (cleared (auth w)) w)).
Proof.
  intros H. unfold refreshAccessToken. run. rewrite H. reflexivity.
Qed.

Lemma refreshAccessToken_loop (w : World B) :
  truthy (refreshToken (auth w)) = true ->
  refreshAccessToken storage env options w =
  refreshLoop storage env options (Z.to_nat (maxRetries options)) 0 ENull w.
Proof.
  intros H. unfold refreshAccessToken. run. rewrite H. reflexivity.
Qed.

(** Success at attempt [k + 1], after [k] failures. *)
Lemma refreshAccessToken_succeeds (w : World B) k errs r :
  let rt := refreshToken (auth w) in
  let req := refreshRequest options rt in
  let newToken := accessTokenOf options (data r) in
  let out := refreshAccessToken storage env options w in
  truthy rt = true ->
  Z.of_nat k < maxRetries options ->
  (∀ j, (j < k)%nat ->
     http_answer env (requests w + j)%nat req = Reject (errs j)) ->
  http_answer env (requests w + k)%nat req = Resolve r ->
  out.1 = Ok newToken
  ∧ auth out.2 = set_refreshToken rt (set_token newToken (auth w))
  ∧ backend out.2 = storeTokens storage newToken rt (backend w)
  ∧ requests out.2 = S (requests w + k)
  ∧ navigations out.2 = navigations w
  ∧ trace out.2 = trace w ++ backoff req 1 k ++ [EvHttp req].
Proof.
  intros rt req newToken out Hrt Hk Hfail Hok. subst out.
  rewrite refreshAccessToken_loop by exact Hrt.
  destruct (refreshLoop_failures storage env options errs k 0
              (Z.to_nat (maxRetries options)) ENull w)
    as (w' & le' & Heq & Ha & Hb & Hr & Hn & Ht).
  - cbn. lia.
  - lia.
  - intros j Hj. cbn. by apply Hfail.
  - change (Z.of_nat 0) with 0 in Heq. rewrite Heq.
    destruct (Z.to_nat (maxRetries options) - k)%nat as [|turns] eqn:Et; [lia|].
    cbn [refreshLoop]. rewrite run_bind.
    rewrite (refreshAttempt_resolved storage env options w' _ r)
      by (rewrite Ha, Hr; exact Hok).
    cbn. rewrite Ha, Hb, Hr, Hn, Ht. fold rt req newToken.
    rewrite <- app_assoc. done.
Qed.

(** All [n + 1 = maxRetries] attempts fail. *)
Lemma refreshAccessToken_fails (w : World B) n errs :
  let rt := refreshToken (auth w) in
  let req := refreshRequest options rt in
  let out := refreshAccessToken storage env options w in
  truthy rt = true ->
  maxRetries options = Z.of_nat (S n) ->
  (∀ j, (j ≤ n)%nat ->
     http_answer env (requests w + j)%nat req = Reject (errs j)) ->
  out.1 = Thrown (EAxios (errs n))
  ∧ auth out.2 = cleared (auth w)
  ∧ backend out.2 = dropTokens storage (backend w)
  ∧ requests out.2 = S (requests w + n)
  ∧ navigations out.2 = navigations w
  ∧ trace out.2 = trace w ++ backoff req 1 n ++ [EvHttp req].
Proof.
  intros rt req out Hrt Hmax Hfail. subst out.
  rewrite refreshAccessToken_loop by exact Hrt.
  destruct (refreshLoop_failures storage env options errs n 0
              (Z.to_nat (maxRetries options)) ENull w)
    as (w' & le' & Heq & Ha & Hb & Hr & Hn & Ht).
  - cbn. lia.
  - lia.
  - intros j Hj. cbn. apply Hfail. lia.
  - change (Z.of_nat 0) with 0 in Heq. rewrite Heq.
    replace (Z.to_nat (maxRetries options) - n)%nat with 1%nat by lia.
    cbn [refreshLoop]. rewrite run_bind.
    rewrite (refreshAttempt_rejected storage env options w' _ (errs n))
      by (rewrite Ha, Hr; apply Hfail; lia).
    rewrite bool_decide_eq_false_2 by (cbn; lia).
    run.
    rewrite Ha, Hb, Hr, Hn, Ht, app_nil_r. fold rt req.
    rewrite <- app_assoc. done.
Qed.

(** With [maxRetries <= 0] the loop body never runs. *)
Lemma refreshAccessToken_no_attempt (w : World B) :
  let out := refreshAccessToken storage env options w in
  truthy (refreshToken (auth w)) = true ->
  maxRetries options <= 0 ->
  out.1 = Thrown ENull
  ∧ auth out.2 = cleared (auth w)
  ∧ backend out.2 = dropTokens storage (backend w)
  ∧ requests out.2 = requests w
  ∧ trace out.2 = trace w.
Proof.
  intros out Hrt Hmax. subst out.
  rewrite refreshAccessToken_loop by exact Hrt.
  replace (Z.to_nat (maxRetries options)) with 0%nat by lia.
  rewrite refreshLoop_exhausted. done.
Qed.

End RefreshOutcomes.

(** ** C6: storage follows memory across [setTokens] *)

(** The edge of the truthiness test: an empty string is kept in memory as it
    is, and removed from storage like an absent value. *)
Example setTokens_empty_string :
  let w' := (setTokens defaultStorage (JStr "") (JStr "") emptyWorld).2 in
  token (auth w') = JStr ""
  ∧ readToken defaultStorage (backend w') = JNull
  ∧ token (auth w') ||| JNull = JNull.
Proof. vm_compute. done. Qed.

(** C6.  After any sequence of [setTokens] calls on a storage backend that
    behaves as two slots, memory holds the pair of the most recent call and
    each storage slot holds the most recent in-memory value when that value
    is present (truthy, the test [setTokens] makes) and nothing when it is
    absent; each call writes a present value and removes an absent one, slot
    by slot, whatever the string is.  In particular storage and memory hold
    the same value whenever the latter is a non-empty string or [null]. *)
Theorem setTokens_storage_follows_memory {B} (storage : AuthStorage B)
    (calls : list (JsVal * JsVal)) (t r : JsVal) (w : World B) :
  StorageLaws storage -> tokenValue t -> tokenValue r ->
  let out := setTokensAll storage (calls ++ [(t, r)]) w in
  let before := (setTokensAll storage calls w).2 in
  out.1 = Ok tt
  ∧ token (auth out.2) = t
  ∧ refreshToken (auth out.2) = r
  ∧ backend out.2 =
    apply_method
      (if truthy r then (λ f, f r) <$> setRefreshToken storage
       else removeRefreshToken storage)
      (apply_method
         (if truthy t then (λ f, f t) <$> setToken storage
          else removeToken storage)
         (backend before))
  ∧ readToken storage (backend out.2) = token (auth out.2) ||| JNull
  ∧ readRefreshToken storage (backend out.2)
    = refreshToken (auth out.2) ||| JNull
  ∧ (truthy t = true ∨ t = JNull ->
     readToken storage (backend out.2) = token (auth out.2))
  ∧ (truthy r = true ∨ r = JNull ->
     readRefreshToken storage (backend out.2) = refreshToken (auth out.2)).
Proof.
  intros L Ht Hr out before. subst out before.
  rewrite setTokensAll_app.
  destruct (setTokens_stored storage t r (setTokensAll storage calls w).2
              L Ht Hr) as [Hst Hsr].
  rewrite setTokens_run in *. cbn in *.
  repeat split; try done.
  - intros [H | ->]; [|done]. rewrite Hst. unfold jor. by rewrite H.
  - intros [H | ->]; [|done]. rewrite Hsr. unfold jor. by rewrite H.
Qed.

Lemma setTokens_storage_follows_memory_witness :
  StorageLaws defaultStorage
  ∧ readToken defaultStorage
      (backend (setTokensAll defaultStorage
                  ([(JStr "old", JNull); (JUndefined, JStr "r0")]
                   ++ [(JStr "A", JStr "R")]) emptyWorld).2) = JStr "A"
  ∧ readRefreshToken defaultStorage
      (backend (setTokensAll defaultStorage
                  ([(JStr "old", JNull); (JUndefined, JStr "r0")]
                   ++ [(JStr "A", JStr "R")]) emptyWorld).2) = JStr "R".
Proof.
  split; [exact defaultStorage_laws|].
  destruct (setTokens_storage_follows_memory defaultStorage
              [(JStr "old", JNull); (JUndefined, JStr "r0")]
              (JStr "A") (JStr "R") emptyWorld defaultStorage_laws I I)
    as (_ & Ht & Hr & _ & _ & _ & Hst & Hsr).
  split.
  - rewrite Hst; [exact Ht | left; reflexivity].
  - rewrite Hsr; [exact Hr | left; reflexivity].
Defined.

(** ** C1: the contract of [refreshAccessToken] *)

(** C1.  [refreshAccessToken], for every server behaviour.  Each attempt
    POSTs the held refresh token, under the configured key, to the refresh
    endpoint with [_skipAuthRefresh] set; [maxRetries] defaults to 3.
    - No refresh token held: auth is cleared and the call throws, no request
      having been sent.
    - [k] failed attempts followed by a successful one, [k < maxRetries]:
      the call returns the access token extracted from that response by
      [login]'s rule, having called [setTokens] with it and the unchanged
      refresh token; it sent [k + 1] requests and waited [1000 * j]
      milliseconds after the [j]-th failure, and nothing follows the
      successful request.
    - All [maxRetries] attempts fail: the same waits between the attempts,
      none after the last, then auth is cleared and the last error is
      thrown.
    - With [maxRetries <= 0] there is no attempt and no error to rethrow:
      auth is cleared and the initial [null] is thrown. *)
Theorem refreshAccessToken_contract {B} (storage : AuthStorage B) (env : Env)
    (options : AuthCoreOptions) (w : World B) :
  let rt := refreshToken (auth w) in
  let req := refreshRequest options rt in
  let out := refreshAccessToken storage env options w in
  (core_maxRetries options = None -> maxRetries options = 3)
  ∧ (method req = POST ∧ url req = ep_refresh (endpoints options)
     ∧ body req = Some {[refreshTokenKey options := rt]}
     ∧ _skipAuthRefresh req = true)
  ∧ (truthy rt = false ->
     out.1 = Thrown (EError "No refresh token available")
     ∧ auth out.2 = cleared (auth w)
     ∧ backend out.2 = dropTokens storage (backend w)
     ∧ requests out.2 = requests w
     ∧ trace out.2 = trace w)
  ∧ (truthy rt = true ->
     ∀ (k : nat) (errs : nat -> AxiosError) (r : Response),
       Z.of_nat k < maxRetries options ->
       (∀ j, (j < k)%nat ->
          http_answer env (requests w + j)%nat req = Reject (errs j)) ->
       http_answer env (requests w + k)%nat req = Resolve r ->
       out.1 = Ok (accessTokenOf options (data r))
       ∧ auth out.2 =
         set_refreshToken rt
           (set_token (accessTokenOf options (data r)) (auth w))
       ∧ backend out.2 =
         storeTokens storage (accessTokenOf options (data r)) rt (backend w)
       ∧ requests out.2 = S (requests w + k)
       ∧ trace out.2 = trace w ++ backoff req 1 k ++ [EvHttp req])
  ∧ (truthy rt = true ->
     ∀ (n : nat) (errs : nat -> AxiosError),
       maxRetries options = Z.of_nat (S n) ->
       (∀ j, (j ≤ n)%nat ->
          http_answer env (requests w + j)%nat req = Reject (errs j)) ->
       out.1 = Thrown (EAxios (errs n))
       ∧ auth out.2 = cleared (auth w)
       ∧ backend out.2 = dropTokens storage (backend w)
       ∧ requests out.2 = S (requests w + n)
       ∧ trace out.2 = trace w ++ backoff req 1 n ++ [EvHttp req])
  ∧ (truthy rt = true -> maxRetries options <= 0 ->
     out.1 = Thrown ENull
     ∧ auth out.2 = cleared (auth w)
     ∧ backend out.2 = dropTokens storage (backend w)
     ∧ requests out.2 = requests w
     ∧ trace out.2 = trace w).
Proof.
  intros rt req out. subst out. repeat apply conj.
  - unfold maxRetries. by intros ->.
  - reflexivity.
  - reflexivity.
  - reflexivity.
  - reflexivity.
  - intros H. by rewrite refreshAccessToken_no_token.
  - intros Hrt k errs r Hk Hfail Hok.
    destruct (refreshAccessToken_succeeds storage env options w k errs r
                Hrt Hk Hfail Hok) as (H1 & H2 & H3 & H4 & _ & H6).
    done.
  - intros Hrt n errs Hmax Hfail.
    destruct (refreshAccessToken_fails storage env options w n errs
                Hrt Hmax Hfail) as (H1 & H2 & H3 & H4 & _ & H6).
    done.
  - intros Hrt Hmax.
    by apply refreshAccessToken_no_attempt.
Qed.

(** Three consecutive transport failures with the default [maxRetries]:
    three requests, waits of 1000 and 2000 milliseconds between them, the
    session cleared and the third error thrown.  One failure and then a
    success: two requests, one wait, the new token returned and stored with
    the refresh token kept.  No refresh token: no request. *)
Lemma refreshAccessToken_contract_witness :
  let req := refreshRequest defaultOptions (JStr "R") in
  let renewed := {| status := 200; data := {["access" := JStr "new"]} |} in
  let failing := scripted [Reject networkError; Reject networkError;
                           Reject unauthorized] [] in
  let recovering := scripted [Reject networkError; Resolve renewed] [] in
  let failed := refreshAccessToken defaultStorage failing defaultOptions
                  sessionWorld in
  let recovered := refreshAccessToken defaultStorage recovering defaultOptions
                     sessionWorld in
  let anonymous := refreshAccessToken defaultStorage failing defaultOptions
                     emptyWorld in
  (failed.1 = Thrown (EAxios unauthorized)
   ∧ auth failed.2 = cleared (auth sessionWorld)
   ∧ backend failed.2 = dropTokens defaultStorage (backend sessionWorld)
   ∧ requests failed.2 = 3%nat
   ∧ trace failed.2 = [EvHttp req; EvSleep 1000; EvHttp req; EvSleep 2000;
                       EvHttp req])
  ∧ (recovered.1 = Ok (JStr "new")
     ∧ token (auth recovered.2) = JStr "new"
     ∧ refreshToken (auth recovered.2) = JStr "R"
     ∧ trace recovered.2 = [EvHttp req; EvSleep 1000; EvHttp req])
  ∧ (anonymous.1 = Thrown (EError "No refresh token available")
     ∧ trace anonymous.2 = []).
Proof.
  intros req renewed failing recovering failed recovered anonymous.
  split; [|split].
  - pose proof (refreshAccessToken_contract defaultStorage failing
                  defaultOptions sessionWorld) as (_ & _ & _ & _ & Hfail & _).
    apply (Hfail eq_refl 2%nat
             (λ j, match j with
                   | 2%nat => unauthorized
                   | _ => networkError
                   end) eq_refl).
    intros j Hj.
    destruct j as [|[|[|j]]]; [reflexivity | reflexivity | reflexivity | lia].
  - pose proof (refreshAccessToken_contract defaultStorage recovering
                  defaultOptions sessionWorld) as (_ & _ & _ & Hok & _).
    destruct (Hok eq_refl 1%nat (λ _, networkError) renewed)
      as (H1 & H2 & _ & _ & H5).
    + reflexivity.
    + intros j Hj. destruct j; [reflexivity | lia].
    + reflexivity.
    + split_and!; [exact H1 | exact (f_equal token H2)
                   | exact (f_equal refreshToken H2) | exact H5].
  - pose proof (refreshAccessToken_contract defaultStorage failing
                  defaultOptions emptyWorld) as (_ & _ & Hnone & _).
    destruct (Hnone eq_refl) as (H1 & _ & _ & _ & H5).
    split; [exact H1 | exact H5].
Defined.

(** ** C10: a refresh response without a token *)

(** C10.  When a refresh POST succeeds (after [k < maxRetries] failures) and
    none of [data[tokenKey]], [data.access], [data.token] is truthy, the call
    still succeeds: it returns the last operand [data.token] (which is
    [undefined] when the body has none of the three fields), nothing is
    thrown and auth is not cleared; [setTokens] has put that absent value
    in memory and removed the access token from storage, and has kept the
    refresh token in both: a refresh token without an access token. *)
Theorem refreshAccessToken_absent_token {B} (storage : AuthStorage B)
    (env : Env) (options : AuthCoreOptions) (w : World B)
    (k : nat) (errs : nat -> AxiosError) (r : Response) :
  let rt := refreshToken (auth w) in
  let req := refreshRequest options rt in
  let out := refreshAccessToken storage env options w in
  truthy rt = true ->
  Z.of_nat k < maxRetries options ->
  (∀ j, (j < k)%nat ->
     http_answer env (requests w + j)%nat req = Reject (errs j)) ->
  http_answer env (requests w + k)%nat req = Resolve r ->
  truthy (prop (data r) (tokenKey options)) = false ->
  truthy (prop (data r) "access") = false ->
  truthy (prop (data r) "token") = false ->
  out.1 = Ok (prop (data r) "token")
  ∧ (data r !! tokenKey options = None -> data r !! "token" = None ->
     out.1 = Ok JUndefined)
  ∧ token (auth out.2) = prop (data r) "token"
  ∧ truthy (token (auth out.2)) = false
  ∧ refreshToken (auth out.2) = rt
  ∧ user (auth out.2) = user (auth w)
  ∧ authenticated (auth out.2) = authenticated (auth w)
  ∧ backend out.2 =
    apply_method ((λ f, f rt) <$> setRefreshToken storage)
      (apply_method (removeToken storage) (backend w))
  ∧ (StorageLaws storage -> tokenValue rt ->
     readToken storage (backend out.2) = JNull
     ∧ readRefreshToken storage (backend out.2) = rt).
Proof.
  intros rt req out Hrt Hk Hfail Hok Hkey Hacc Htok. subst out.
  destruct (refreshAccessToken_succeeds storage env options w k errs r
              Hrt Hk Hfail Hok) as (H1 & H2 & H3 & _).
  assert (accessTokenOf options (data r) = prop (data r) "token") as Hnew.
  { unfold accessTokenOf, jor. by rewrite Hkey, Hacc. }
  rewrite Hnew in *. rewrite H1, H2, H3. unfold storeTokens.
  fold rt. rewrite Htok, Hrt. cbn.
  split_and!; try done.
  - intros _ Hnone. unfold prop. by rewrite Hnone.
  - intros L Hvalue. split.
    + rewrite (token_set_refresh _ L). apply (read_remove_token _ L).
    + destruct (truthy_string rt Hvalue Hrt) as [s Hs]. rewrite Hs.
      apply (read_set_refresh _ L).
Qed.

Lemma refreshAccessToken_absent_token_witness :
  let env := scripted [Reject networkError;
                       Resolve {| status := 200;
                                  data := {["ok" := JBool true]} |}] [] in
  let out := refreshAccessToken defaultStorage env defaultOptions
               sessionWorld in
  out.1 = Ok JUndefined
  ∧ token (auth out.2) = JUndefined
  ∧ refreshToken (auth out.2) = JStr "R"
  ∧ authenticated (auth out.2) = true
  ∧ readToken defaultStorage (backend out.2) = JNull
  ∧ readRefreshToken defaultStorage (backend out.2) = JStr "R".
Proof.
  intros env out.
  pose proof (refreshAccessToken_absent_token defaultStorage env
                defaultOptions sessionWorld 1 (λ _, networkError)
                {| status := 200; data := {["ok" := JBool true]} |})
    as H.
  destruct H as (_ & H1 & H2 & _ & H4 & _ & H6 & _ & H8);
    try reflexivity.
  - intros j Hj. destruct j; [reflexivity | lia].
  - destruct (H8 defaultStorage_laws I) as [H9 H10].
    repeat split; assumption.
Defined.

(** ** C7, C8, C9: [login] *)




Lemma prop_insert_eq (d : gmap string JsVal) k v : prop (<[k := v]> d) k = v.
Proof. unfold prop. by rewrite lookup_insert_eq. Qed.

Lemma prop_insert_ne (d : gmap string JsVal) k k' v :
  k ≠ k' -> prop (<[k := v]> d) k' = prop d k'.
Proof. intros H. unfold prop. by rewrite lookup_insert_ne. Qed.

Lemma prop_singleton_eq k v : prop {[k := v]} k = v.
Proof. unfold prop. by rewrite lookup_singleton_eq. Qed.

Lemma prop_singleton_ne k k' v : k ≠ k' -> prop {[k := v]} k' = JUndefined.
Proof. intros H. unfold prop. by rewrite lookup_singleton_ne. Qed.

Lemma truthy_JStr s : s ≠ "" -> truthy (JStr s) = true.
Proof. intros H. cbn. by case_decide. Qed.

Lemma jor_cases (a b c : JsVal) :
  (truthy a = true -> a ||| b ||| c = a)
  ∧ (truthy a = false -> truthy b = true -> a ||| b ||| c = b)
  ∧ (truthy a = false -> truthy b = false -> a ||| b ||| c = c).
Proof.
  unfold jor. repeat split.
  - intros H. by rewrite H, H.
  - intros H1 H2. by rewrite H1, H2.
  - intros H1 H2. by rewrite H1, H2.
Qed.

(** C8.  [login] takes the access token from the response body as the first
    truthy one of [data[tokenKey]], [data.access], [data.token] (the last
    one if none is), the refresh token likewise from
    [data[refreshTokenKey]], [data.refresh], [data.refresh_token], and hands
    the two to [setTokens].  For the body [{access: a, refresh: r}], [a] and
    [r] non-empty, the pair is [a]/[r] whenever the configured access key
    is not ["refresh"] and the configured refresh key is not ["access"]
    (so with neither configured key in the body, and with the default keys):
    it is what memory and storage hold when the login completes. *)
Theorem login_token_extraction {B} (src : Source) (storage : AuthStorage B)
    (env : Env) (options : AuthCoreOptions)
    (credentials : gmap string JsVal) (w : World B) :
  let out := login src storage env options credentials w in
  let post := http_answer env (requests w) (loginRequest options credentials) in
  let get := http_answer env (S (requests w)) (userRequest options) in
  (∀ d,
     (truthy (prop d (tokenKey options)) = true ->
      accessTokenOf options d = prop d (tokenKey options))
     ∧ (truthy (prop d (tokenKey options)) = false ->
        truthy (prop d "access") = true ->
        accessTokenOf options d = prop d "access")
     ∧ (truthy (prop d (tokenKey options)) = false ->
        truthy (prop d "access") = false ->
        accessTokenOf options d = prop d "token"))
  ∧ (∀ d,
       (truthy (prop d (refreshTokenKey options)) = true ->
        refreshOf options d = prop d (refreshTokenKey options))
       ∧ (truthy (prop d (refreshTokenKey options)) = false ->
          truthy (prop d "refresh") = true ->
          refreshOf options d = prop d "refresh")
       ∧ (truthy (prop d (refreshTokenKey options)) = false ->
          truthy (prop d "refresh") = false ->
          refreshOf options d = prop d "refresh_token"))
  ∧ (∀ r u, post = Resolve r -> get = Resolve u ->
       token (auth out.2) = accessTokenOf options (data r)
       ∧ refreshToken (auth out.2) = refreshOf options (data r)
       ∧ backend out.2 =
         storeTokens storage (accessTokenOf options (data r))
           (refreshOf options (data r)) (backend w))
  ∧ (∀ (a r : string) (d : gmap string JsVal),
       d = {["access" := JStr a; "refresh" := JStr r]} ->
       a ≠ "" -> r ≠ "" ->
       tokenKey options ≠ "refresh" -> refreshTokenKey options ≠ "access" ->
       accessTokenOf options d = JStr a
       ∧ refreshOf options d = JStr r
       ∧ ∀ st u, post = Resolve {| status := st; data := d |} ->
                 get = Resolve u ->
           token (auth out.2) = JStr a
           ∧ refreshToken (auth out.2) = JStr r
           ∧ (StorageLaws storage ->
              readToken storage (backend out.2) = JStr a
              ∧ readRefreshToken storage (backend out.2) = JStr r)).
Proof.
  intros out post get. subst out.
  assert (∀ r u, post = Resolve r -> get = Resolve u ->
            login src storage env options credentials w = _) as Hok
    by (intros r u Hr Hu; exact (login_succeeds src storage env options
                                   w credentials r u Hr Hu)).
  split; [intros d; apply jor_cases|].
  split; [intros d; apply jor_cases|].
  split.
  { intros r u Hr Hu. by rewrite (Hok r u Hr Hu). }
  intros a r d -> Ha Hr Hk Hrk.
  pose proof (truthy_JStr a Ha) as Ta.
  pose proof (truthy_JStr r Hr) as Tr.
  assert (accessTokenOf options {["access" := JStr a; "refresh" := JStr r]}
          = JStr a) as Eacc.
  { unfold accessTokenOf, jor.
    destruct (decide (tokenKey options = "access")) as [->|Hne].
    - rewrite !prop_insert_eq. by rewrite !Ta.
    - rewrite (prop_insert_ne _ "access" (tokenKey options)) by done.
      rewrite prop_singleton_ne by done.
      rewrite prop_insert_eq. change (truthy JUndefined) with false.
      cbv iota. by rewrite !Ta. }
  assert (refreshOf options {["access" := JStr a; "refresh" := JStr r]}
          = JStr r) as Eref.
  { unfold refreshOf, jor.
    rewrite (prop_insert_ne _ "access" (refreshTokenKey options)) by done.
    destruct (decide (refreshTokenKey options = "refresh")) as [->|Hne].
    - rewrite !prop_singleton_eq. by rewrite !Tr.
    - rewrite prop_singleton_ne by done.
      rewrite (prop_insert_ne _ "access" "refresh") by done.
      rewrite prop_singleton_eq. change (truthy JUndefined) with false.
      cbv iota. by rewrite !Tr. }
  split_and!; try done.
  intros st u Hpost Hget. rewrite (Hok _ u Hpost Hget). cbn.
  rewrite Eacc, Eref. split_and!; try done.
  intros L. unfold storeTokens. rewrite Ta, Tr. split.
  - rewrite (token_set_refresh _ L). apply (read_set_token _ L).
  - apply (read_set_refresh _ L).
Qed.

(** The body [{access: "A", refresh: "R"}] under the default keys. *)
Lemma login_token_extraction_witness :
  let tokens := {| status := 200;
                   data := {["access" := JStr "A"; "refresh" := JStr "R"]} |} in
  let profile := {| status := 200; data := {["name" := JStr "ana"]} |} in
  let env := scripted [Resolve tokens; Resolve profile] [] in
  let out := login auth_ts defaultStorage env defaultOptions
               {["username" := JStr "ana"]} emptyWorld in
  token (auth out.2) = JStr "A"
  ∧ refreshToken (auth out.2) = JStr "R"
  ∧ readToken defaultStorage (backend out.2) = JStr "A"
  ∧ readRefreshToken defaultStorage (backend out.2) = JStr "R".
Proof.
  intros tokens profile env out.
  pose proof (login_token_extraction auth_ts defaultStorage env
                defaultOptions {["username" := JStr "ana"]} emptyWorld)
    as (_ & _ & _ & Hex).
  destruct (Hex "A" "R" _ eq_refl ltac:(discriminate) ltac:(discriminate)
              ltac:(discriminate) ltac:(discriminate)) as (_ & _ & Hrun).
  destruct (Hrun 200 profile eq_refl eq_refl) as (Ht & Hr & Hst).
  destruct (Hst defaultStorage_laws) as [Hs1 Hs2].
  repeat split; assumption.
Defined.



(** ** C3: [logout] *)

Section Logout.
Context {B : Type}.
Variable src : Source.
Variable storage : AuthStorage B.
Variable env : Env.
Variable options : AuthCoreOptions.

Lemma logout_navigated (w : World B) :
  router_answer env (navigations w) (logoutTarget src options) = None ->
  logout src storage env options w =
  (Ok tt,
   {| auth := cleared (auth w);
      backend := dropTokens storage (backend w);
      requests := requests w;
      navigations := S (navigations w);
      trace := (trace w ++ [EvReplace (logoutTarget src options)])
               ++ called (invokes_callbacks src && core_onLogout options)
                    EvOnLogout;
      console := console w |}).
Proof.
  intros H. unfold logout. run. fold (logoutTarget src options). rewrite H.
  destruct src, (core_onLogout options); run; rewrite ?app_nil_r;
    reflexivity.
Qed.

Lemma logout_navigation_failed (w : World B) e :
  router_answer env (navigations w) (logoutTarget src options) = Some e ->
  logout src storage env options w =
  (Ok tt,
   {| auth := set_authenticated false (auth w);
      backend := backend w;
      requests := requests w;
      navigations := S (navigations w);
      trace := trace w ++ [EvReplace (logoutTarget src options)];
      console := console w ++ [LogError e] |}).
Proof.
  intros H. unfold logout. run. fold (logoutTarget src options). rewrite H.
  reflexivity.
Qed.

(** What [logout] does hold in both files: it never throws, [authenticated]
    is false afterwards whether or not the navigation succeeded, the
    navigation comes first and is a [replace] with a [logout] query marker,
    a failed navigation is logged and skips [clearAuth]. *)
Lemma logout_never_throws (w : World B) :
  let out := logout src storage env options w in
  out.1 = Ok tt
  ∧ authenticated (auth out.2) = false
  ∧ (∃ rest, trace out.2
             = trace w ++ EvReplace (logoutTarget src options) :: rest)
  ∧ truthy (prop (loc_query (logoutTarget src options)) "logout") = true
  ∧ (∀ e, router_answer env (navigations w) (logoutTarget src options)
          = Some e ->
       console out.2 = console w ++ [LogError e]
       ∧ token (auth out.2) = token (auth w)
       ∧ backend out.2 = backend w)
  ∧ (router_answer env (navigations w) (logoutTarget src options) = None ->
     auth out.2 = cleared (auth w)
     ∧ backend out.2 = dropTokens storage (backend w)).
Proof.
  intros out. subst out.
  destruct (router_answer env (navigations w) (logoutTarget src options))
    as [e|] eqn:E.
  - rewrite (logout_navigation_failed w e E). cbn.
    split_and!; try done; try (by exists []); try (by destruct src).
    by intros e' [= <-].
  - rewrite (logout_navigated w E). cbn.
    split_and!; try done; try (by destruct src).
    eexists. by rewrite <- app_assoc.
Qed.

End Logout.

(** In [auth.ts], called directly with its options, the sequence is the
    documented one: navigation to the route named in the options, then
    [clearAuth], then the logout callback. *)
Lemma logout_ts_sequence {B} (storage : AuthStorage B) (env : Env)
    (options : AuthCoreOptions) (w : World B) route :
  core_loginRouteName options = Some route ->
  router_answer env (navigations w) (logoutTarget auth_ts options) = None ->
  let out := logout auth_ts storage env options w in
  loc_name (logoutTarget auth_ts options) = JStr route
  ∧ auth out.2 = cleared (auth w)
  ∧ trace out.2 = trace w ++ [EvReplace (logoutTarget auth_ts options)]
                  ++ called (core_onLogout options) EvOnLogout.
Proof.
  intros Hroute Hnav out. subst out. rewrite (logout_navigated _ _ _ _ w Hnav).
  cbn. unfold loginRouteName. rewrite Hroute, <- app_assoc. done.
Qed.

(** C3.  The specification has [logout] set [authenticated] to false,
    navigate (replace) to the configured login route with a [logout] query
    marker, call [clearAuth], call the optional logout callback, and never
    throw.  The code departs from it in two places.  [createAuth] hands
    [createAuthCore] an options object without [loginRouteName], so the route
    [logout] navigates to never depends on the configured login route: it
    has no name in [auth.js] and the name ["login"] in [auth.ts].  And
    [auth.js] never calls the logout callback: whatever the options and
    whatever the router answers, the only call [logout] makes is the
    navigation. *)
Theorem logout_ignores_route_and_callback {B} (storage : AuthStorage B)
    (env : Env) (o : AuthOptions) (w : World B) :
  let options := createAuth_coreOptions o in
  let out := logout auth_js storage env options w in
  loc_name (logoutTarget auth_js options) = JUndefined
  ∧ loc_name (logoutTarget auth_ts options) = JStr "login"
  ∧ out.1 = Ok tt
  ∧ trace out.2 = trace w ++ [EvReplace (logoutTarget auth_js options)].
Proof.
  intros options out. subst out.
  split; [reflexivity|]. split; [reflexivity|].
  destruct (router_answer env (navigations w) (logoutTarget auth_js options))
    as [e|] eqn:E.
  - by rewrite (logout_navigation_failed auth_js storage env options w e E).
  - rewrite (logout_navigated auth_js storage env options w E). cbn.
    by rewrite ?app_nil_r.
Qed.

(** The failing input of C3: login route ["signin"] and a logout callback
    configured, navigation succeeding. *)
Example logout_signin_js :
  let out := logout auth_js defaultStorage (scripted [] [])
               (createAuth_coreOptions signinOptions) sessionWorld in
  trace out.2 =
  [EvReplace {| loc_name := JUndefined; loc_path := JUndefined;
                loc_query := {["logout" := JBool true]};
                loc_replace := false |}].
Proof. reflexivity. Qed.

Example logout_signin_ts :
  let out := logout auth_ts defaultStorage (scripted [] [])
               (createAuth_coreOptions signinOptions) sessionWorld in
  trace out.2 =
  [EvReplace {| loc_name := JStr "login"; loc_path := JUndefined;
                loc_query := {["logout" := JStr "true"]};
                loc_replace := false |};
   EvOnLogout].
Proof. reflexivity. Qed.

(** ** C4: [fetchUser] *)

(** What [fetchUser] does hold in both files: on success the body becomes
    the user, [authenticated] is set and the body returned; on failure auth
    is cleared and the error rethrown; [loading] ends false either way. *)
Lemma fetchUser_outcomes {B} (src : Source) (storage : AuthStorage B)
    (env : Env) (options : AuthCoreOptions) (w : World B) :
  let out := fetchUser src storage env options w in
  loading (auth out.2) = false
  ∧ (∀ r, http_answer env (requests w) (userRequest options) = Resolve r ->
       out.1 = Ok (data r)
       ∧ user (auth out.2) = Some (data r)
       ∧ authenticated (auth out.2) = true)
  ∧ (∀ e, http_answer env (requests w) (userRequest options) = Reject e ->
       out.1 = Thrown (EAxios e)
       ∧ auth out.2 = set_loading false (cleared (auth w))
       ∧ backend out.2 = dropTokens storage (backend w)).
Proof.
  intros out. subst out.
  destruct (http_answer env (requests w) (userRequest options)) as [r|e] eqn:E.
  - rewrite (fetchUser_resolved src storage env options w r E). cbn.
    split_and!; try done; by intros ? [= <-].
  - rewrite (fetchUser_rejected src storage env options w e E). cbn.
    split_and!; try done; by intros ? [= <-].
Qed.

(** In [auth.ts] the fetch-user callback is called with the body. *)
Lemma fetchUser_ts_callback {B} (storage : AuthStorage B) (env : Env)
    (options : AuthCoreOptions) (w : World B) r :
  http_answer env (requests w) (userRequest options) = Resolve r ->
  trace (fetchUser auth_ts storage env options w).2 =
  trace w ++ [EvHttp (userRequest options)]
  ++ called (core_onFetchUser options) (EvOnFetchUser (data r)).
Proof.
  intros H. rewrite (fetchUser_resolved auth_ts storage env options w r H).
  cbn. by rewrite <- app_assoc.
Qed.

(** C4.  The specification has a successful [fetchUser] store the body as
    the user, set [authenticated], call the optional fetch-user callback and
    return the body, [loading] being reset afterwards.  The code departs
    from it: in [auth.js] a successful [fetchUser] does all the rest, but
    the only call it makes is the GET; the fetch-user callback is not
    called, supplied or not. *)
Theorem fetchUser_js_no_callback {B} (storage : AuthStorage B) (env : Env)
    (options : AuthCoreOptions) (w : World B) (r : Response) :
  core_onFetchUser options = true ->
  http_answer env (requests w) (userRequest options) = Resolve r ->
  let out := fetchUser auth_js storage env options w in
  out.1 = Ok (data r)
  ∧ user (auth out.2) = Some (data r)
  ∧ authenticated (auth out.2) = true
  ∧ loading (auth out.2) = false
  ∧ trace out.2 = trace w ++ [EvHttp (userRequest options)]
  ∧ EvOnFetchUser (data r) ∉ [EvHttp (userRequest options)].
Proof.
  intros Hcb H out. subst out.
  rewrite (fetchUser_resolved auth_js storage env options w r H). cbn.
  rewrite app_nil_r. repeat split; try done.
  by intros ?%list_elem_of_singleton.
Qed.

Lemma fetchUser_js_no_callback_witness :
  let profile := {| status := 200; data := {["name" := JStr "ana"]} |} in
  let out := fetchUser auth_js defaultStorage (scripted [Resolve profile] [])
               (createAuth_coreOptions signinOptions) emptyWorld in
  trace out.2 =
  [EvHttp (userRequest (createAuth_coreOptions signinOptions))].
Proof.
  intros profile out.
  destruct (fetchUser_js_no_callback defaultStorage
              (scripted [Resolve profile] [])
              (createAuth_coreOptions signinOptions) emptyWorld profile
              eq_refl eq_refl) as (_ & _ & _ & _ & H & _).
  exact H.
Defined.

(** ** C2: the response interceptor *)

Section ResponseInterceptor.
Context {B : Type}.
Variable storage : AuthStorage B.
Variable env : Env.
Variable options : AuthCoreOptions.
Variable onSessionExpired : option (World B -> World B).

Lemma responseRejected_not_401 (error : AxiosError) (w : World B) :
  error_status error ≠ Some 401 ->
  responseRejected storage env options onSessionExpired error w =
  (Thrown (EAxios error), w).
Proof.
  intros H. unfold responseRejected.
  by rewrite bool_decide_eq_true_2.
Qed.

Lemma responseRejected_exempt (error : AxiosError) (w : World B) req :
  error_status error = Some 401 ->
  config error = Some req -> _skipAuthRefresh req = true ->
  responseRejected storage env options onSessionExpired error w =
  (Thrown (EAxios error), w).
Proof.
  intros H Hc Hs. unfold responseRejected.
  rewrite bool_decide_eq_false_2 by (by intros ?).
  rewrite Hc. cbn. by rewrite Hs.
Qed.

Lemma responseRejected_retried (error : AxiosError) (w : World B) req :
  error_status error = Some 401 ->
  config error = Some req -> _skipAuthRefresh req = false ->
  _retry req = true ->
  responseRejected storage env options onSessionExpired error w =
  (Thrown (EAxios error), expired onSessionExpired w).
Proof.
  intros H Hc Hs Hr. unfold responseRejected.
  rewrite bool_decide_eq_false_2 by (by intros ?).
  rewrite Hc. cbn. by rewrite Hs, Hr.
Qed.

Lemma responseRejected_no_refresh_token (error : AxiosError) (w : World B) :
  error_status error = Some 401 ->
  default false (_skipAuthRefresh <$> config error) = false ->
  default false (_retry <$> config error) = false ->
  truthy (refreshToken (auth w)) = false ->
  responseRejected storage env options onSessionExpired error w =
  (Thrown (EAxios error), w).
Proof.
  intros H Hs Hr Ht. unfold responseRejected.
  rewrite bool_decide_eq_false_2 by (by intros ?).
  rewrite Hs, Hr. run. by rewrite Ht.
Qed.

Lemma responseRejected_refreshes (error : AxiosError) (w : World B) :
  error_status error = Some 401 ->
  default false (_skipAuthRefresh <$> config error) = false ->
  default false (_retry <$> config error) = false ->
  truthy (refreshToken (auth w)) = true ->
  responseRejected storage env options onSessionExpired error w =
  match refreshAccessToken storage env options w with
  | (Ok newToken, w1) =>
      match config error with
      | Some req => http env (with_authorization newToken (mark_retry req)) w1
      | None => (Thrown (EAxios error), w1)
      end
  | (Thrown refreshError, w1) =>
      (Thrown refreshError, expired onSessionExpired w1)
  end.
Proof.
  intros H Hs Hr Ht. unfold responseRejected.
  rewrite bool_decide_eq_false_2 by (by intros ?).
  rewrite Hs, Hr.
  cbv beta delta [mbind M_bind mret M_ret try_catch get_auth]. cbn.
  rewrite Ht. cbn.
  destruct (refreshAccessToken storage env options w) as [[newToken|e] w1].
  - by destruct (config error).
  - reflexivity.
Qed.

End ResponseInterceptor.

(** C2, as amended.  The checks of the response interceptor, in order: a
    non-401 error is rejected unchanged; a 401 on an exempt request is
    rejected unchanged; a 401 on a request already marked retried calls the
    session-expired callback and rejects the original error; a 401 with no
    refresh token held is rejected unchanged; otherwise
    [refreshAccessToken] runs once, and
    - if it fails, the session-expired callback is called and the refresh
      error, not the 401, is rejected;
    - if it succeeds and the error carries its request config, that request,
      marked retried and with [Authorization] set to the new bearer token,
      is reissued once and its outcome is the outcome of the interceptor;
    - if it succeeds and the error carries no request config, nothing is
      reissued and the original error is rejected.
    A 401 on the reissued request is of the third kind: it starts no
    refresh and no replay. *)
Theorem responseRejected_outcomes {B} (storage : AuthStorage B) (env : Env)
    (options : AuthCoreOptions)
    (onSessionExpired : option (World B -> World B))
    (error : AxiosError) (w : World B) :
  let out := responseRejected storage env options onSessionExpired error w in
  let exempt := default false (_skipAuthRefresh <$> config error) in
  let retried := default false (_retry <$> config error) in
  (error_status error ≠ Some 401 -> out = (Thrown (EAxios error), w))
  ∧ (error_status error = Some 401 -> exempt = true ->
     out = (Thrown (EAxios error), w))
  ∧ (error_status error = Some 401 -> exempt = false -> retried = true ->
     out = (Thrown (EAxios error), expired onSessionExpired w))
  ∧ (error_status error = Some 401 -> exempt = false -> retried = false ->
     truthy (refreshToken (auth w)) = false ->
     out = (Thrown (EAxios error), w))
  ∧ (error_status error = Some 401 -> exempt = false -> retried = false ->
     truthy (refreshToken (auth w)) = true ->
     ∀ res w1, refreshAccessToken storage env options w = (res, w1) ->
       match res, config error with
       | Thrown refreshError, _ =>
           out = (Thrown refreshError, expired onSessionExpired w1)
       | Ok newToken, Some req =>
           let replay := with_authorization newToken (mark_retry req) in
           out = http env replay w1
           ∧ _retry replay = true
           ∧ headers replay !! "Authorization"
             = Some ("Bearer " +:+ toString newToken)
           ∧ trace out.2 = trace w1 ++ [EvHttp replay]
           ∧ requests out.2 = S (requests w1)
       | Ok newToken, None => out = (Thrown (EAxios error), w1)
       end)
  ∧ (∀ req newToken (again : AxiosError) (w2 : World B),
       _skipAuthRefresh req = false ->
       config again = Some (with_authorization newToken (mark_retry req)) ->
       error_status again = Some 401 ->
       responseRejected storage env options onSessionExpired again w2
       = (Thrown (EAxios again), expired onSessionExpired w2)).
Proof.
  intros out exempt retried. subst out exempt retried. split_and!.
  - apply responseRejected_not_401.
  - intros H He. destruct (config error) as [req|] eqn:Ec; [|done].
    by apply (responseRejected_exempt _ _ _ _ _ _ req).
  - intros H He Hr. destruct (config error) as [req|] eqn:Ec; [|done].
    by apply (responseRejected_retried _ _ _ _ _ _ req).
  - by apply responseRejected_no_refresh_token.
  - intros H He Hr Ht res w1 Hrun.
    rewrite (responseRejected_refreshes _ _ _ _ _ _ H He Hr Ht), Hrun.
    destruct res as [newToken|refreshError]; [|done].
    destruct (config error) as [req|]; [|done].
    split_and!; try done.
    + cbn. by rewrite lookup_insert_eq.
    + unfold http. by destruct (http_answer _ _ _).
    + unfold http. by destruct (http_answer _ _ _).
  - intros req newToken again w2 Hs Hc H.
    by apply (responseRejected_retried _ _ _ _ _ _
                (with_authorization newToken (mark_retry req))).
Qed.

(** A 401 on [GET /profile/], a refresh that succeeds at once, a replay that
    succeeds: two requests, the second one the original request marked
    retried and carrying the new bearer token. *)
Lemma responseRejected_outcomes_witness :
  let renewed := {| status := 200; data := {["access" := JStr "new"]} |} in
  let profile := {| status := 200; data := {["name" := JStr "ana"]} |} in
  let env := scripted [Resolve renewed; Resolve profile] [] in
  let out := responseRejected defaultStorage env defaultOptions
               (Some appSessionExpired) (unauthorizedFor profileRequest)
               sessionWorld in
  out.1 = Ok profile
  ∧ trace out.2 =
    [EvHttp (refreshRequest defaultOptions (JStr "R"));
     EvHttp {| method := GET; url := JStr "/profile/"; body := None;
               headers := {["Authorization" := "Bearer new"]};
               _skipAuthRefresh := false; _retry := true |}].
Proof.
  intros renewed profile env out.
  pose proof (responseRejected_outcomes defaultStorage env defaultOptions
                (Some appSessionExpired) (unauthorizedFor profileRequest)
                sessionWorld)
    as (_ & _ & _ & _ & Hrefresh & _).
  specialize (Hrefresh eq_refl eq_refl eq_refl eq_refl _ _ eq_refl).
  destruct Hrefresh as (Hout & _). subst out. rewrite Hout.
  split; reflexivity.
Defined.

(** As first stated the property fails on an error without its request config: the
    refresh succeeds (one request, the new token stored), yet nothing is
    reissued and the original 401 is rejected. *)
Lemma responseRejected_without_config :
  let renewed := {| status := 200; data := {["access" := JStr "new"]} |} in
  let env := scripted [Resolve renewed; Resolve renewed] [] in
  let out := responseRejected defaultStorage env defaultOptions
               (Some appSessionExpired) unauthorized sessionWorld in
  error_status unauthorized = Some 401
  ∧ truthy (refreshToken (auth sessionWorld)) = true
  ∧ (refreshAccessToken defaultStorage env defaultOptions sessionWorld).1
    = Ok (JStr "new")
  ∧ token (auth out.2) = JStr "new"
  ∧ out.1 = Thrown (EAxios unauthorized)
  ∧ trace out.2 = [EvHttp (refreshRequest defaultOptions (JStr "R"))].
Proof. vm_compute. done. Qed.

(** The default handler of [createAuth] on a 401 of an already retried
    request: the session is cleared and a navigation to the configured
    login route, marked [expired], is started. *)
Example responseRejected_default_handler :
  let error := unauthorizedFor (mark_retry profileRequest) in
  let out := responseRejected defaultStorage (scripted [] []) defaultOptions
               (createAuth_onSessionExpired defaultStorage
                  {| opt_onSessionExpired := false; opt_onError := false;
                     opt_onLogin := false; opt_onLogout := false;
                     opt_onFetchUser := false; opt_endpoints := None;
                     opt_tokenKey := None; opt_refreshTokenKey := None;
                     opt_maxRetries := None;
                     opt_loginRouteName := Some "signin";
                     opt_resetPasswordRouteName := None;
                     opt_publicMetaKey := None; opt_authMetaKey := None;
                     opt_defaultRedirect := None |})
               error sessionWorld in
  out.1 = Thrown (EAxios error)
  ∧ auth out.2 = cleared (auth sessionWorld)
  ∧ trace out.2 =
    [EvReplace {| loc_name := JStr "signin"; loc_path := JUndefined;
                  loc_query := {["expired" := JStr "true"]};
                  loc_replace := false |}].
Proof. vm_compute. done. Qed.

(** ** C5: the navigation guard *)

Section Guard.
Context {B : Type}.
Variable env : Env.
Variable options : GuardOptions.

(** The decision, once [loading] is false: no wait, no effect. *)
Lemma beforeEach_settled (to : Route) (w : World B) :
  loading (auth w) = false ->
  beforeEach env options to w =
  (Ok (if truthy (prop (query to) "logout")
       then Redirect {| loc_name := JUndefined; loc_path := JStr (path to);
                        loc_query := delete "logout" (query to);
                        loc_replace := true |}
       else if (bool_decide (name to = JStr (guardLoginRouteName options))
                || bool_decide (name to = JStr (resetPasswordRouteName options)))
               && authenticated (auth w)
       then Redirect {| loc_name := JUndefined;
                        loc_path := prop (query to) "redirect"
                                    ||| JStr (defaultRedirect options);
                        loc_query := ∅; loc_replace := true |}
       else if existsb (λ record,
                          truthy (prop (meta record) (authMetaKey options)))
                 (matched to)
               && negb (authenticated (auth w))
       then Redirect {| loc_name := JStr (guardLoginRouteName options);
                        loc_path := JUndefined;
                        loc_query := {["redirect" := JStr (fullPath to)]};
                        loc_replace := false |}
       else Proceed), w).
Proof.
  intros H. unfold beforeEach. run. rewrite H.
  repeat (case_match; try reflexivity).
Qed.

Lemma requiresAuth_spec (to : Route) :
  existsb (λ record, truthy (prop (meta record) (authMetaKey options)))
    (matched to) = true
  ↔ ∃ record, record ∈ matched to
              ∧ truthy (prop (meta record) (authMetaKey options)) = true.
Proof.
  rewrite existsb_exists. split; intros (r & Hin & Hr); exists r;
    (split; [by apply list_elem_of_In | done]).
Qed.

End Guard.

(** C5.  With [loading] false the guard decides at once, leaving the session
    and the trace as they are, by the first check that applies:
    (1) a truthy [logout] entry in the target's query: redirect, replacing
        history, to the same path with the query less that entry, a target
        on which check (1) no longer applies;
    (2) else the target is named as the login or the reset-password route
        and the session is authenticated: redirect, replacing history, to
        [query.redirect] if truthy, else to the configured default;
    (3) else some matched record has a truthy auth meta flag and the session
        is not authenticated: redirect to the login route with
        [redirect] set to the target's full path;
    (4) else the navigation proceeds. *)
Theorem beforeEach_priorities {B} (env : Env) (options : GuardOptions)
    (to : Route) (w : World B) :
  loading (auth w) = false ->
  let out := beforeEach env options to w in
  let marker := truthy (prop (query to) "logout") = true in
  let loginPage :=
    name to = JStr (guardLoginRouteName options)
    ∨ name to = JStr (resetPasswordRouteName options) in
  let protected :=
    ∃ record, record ∈ matched to
              ∧ truthy (prop (meta record) (authMetaKey options)) = true in
  out.2 = w
  ∧ (marker ->
     out.1 = Ok (Redirect {| loc_name := JUndefined;
                             loc_path := JStr (path to);
                             loc_query := delete "logout" (query to);
                             loc_replace := true |})
     ∧ (∀ k, k ≠ "logout" ->
          delete "logout" (query to) !! k = query to !! k)
     ∧ (∀ to', query to' = delete "logout" (query to) ->
          truthy (prop (query to') "logout") = false))
  ∧ (¬ marker -> loginPage -> authenticated (auth w) = true ->
     out.1 = Ok (Redirect {| loc_name := JUndefined;
                             loc_path := prop (query to) "redirect"
                                         ||| JStr (defaultRedirect options);
                             loc_query := ∅; loc_replace := true |})
     ∧ (truthy (prop (query to) "redirect") = true ->
        prop (query to) "redirect" ||| JStr (defaultRedirect options)
        = prop (query to) "redirect")
     ∧ (truthy (prop (query to) "redirect") = false ->
        prop (query to) "redirect" ||| JStr (defaultRedirect options)
        = JStr (defaultRedirect options)))
  ∧ (¬ marker -> ¬ (loginPage ∧ authenticated (auth w) = true) ->
     protected -> authenticated (auth w) = false ->
     out.1 = Ok (Redirect {| loc_name := JStr (guardLoginRouteName options);
                             loc_path := JUndefined;
                             loc_query := {["redirect" := JStr (fullPath to)]};
                             loc_replace := false |}))
  ∧ (¬ marker -> ¬ (loginPage ∧ authenticated (auth w) = true) ->
     ¬ (protected ∧ authenticated (auth w) = false) ->
     out.1 = Ok Proceed).
Proof.
  intros Hload out marker loginPage protected.
  subst out marker loginPage protected.
  rewrite (beforeEach_settled env options to w Hload). cbn [fst snd].
  split_and!.
  - done.
  - intros ->. split_and!; [done | |].
    + intros k Hk. by rewrite lookup_delete_ne.
    + intros to' ->. unfold prop. by rewrite lookup_delete_eq.
  - intros Hm Hp Ha. apply not_true_is_false in Hm. rewrite Hm, Ha.
    assert (bool_decide (name to = JStr (guardLoginRouteName options))
            || bool_decide (name to = JStr (resetPasswordRouteName options))
            = true) as ->.
    { destruct Hp as [Hp|Hp]; rewrite (bool_decide_eq_true_2 _ Hp);
        [done | by rewrite orb_true_r]. }
    unfold jor. split_and!; [done | by intros -> | by intros ->].
  - intros Hm Hnp Hprot Ha. apply not_true_is_false in Hm. rewrite Hm, Ha.
    rewrite andb_false_r. apply requiresAuth_spec in Hprot.
    by rewrite Hprot.
  - intros Hm Hnp Hnprot. apply not_true_is_false in Hm. rewrite Hm.
    destruct ((bool_decide (name to = JStr (guardLoginRouteName options))
               || bool_decide (name to = JStr (resetPasswordRouteName options)))
              && authenticated (auth w)) eqn:E1.
    { exfalso. apply Hnp. apply andb_prop in E1 as [E1 E2].
      split; [|done]. apply orb_prop in E1 as [E1|E1];
        apply bool_decide_eq_true_1 in E1; auto. }
    destruct (existsb _ (matched to) && negb (authenticated (auth w)))
      eqn:E2; [|done].
    exfalso. apply Hnprot. apply andb_prop in E2 as [E2 E3].
    split; [by apply requiresAuth_spec|]. by apply negb_true_iff.
Qed.

(** An anonymous visit to the protected [/reports?year=2024]. *)
Lemma beforeEach_priorities_witness :
  let out := beforeEach (scripted [] []) defaultGuardOptions reportsRoute
               anonymousWorld in
  out.1 = Ok (Redirect {| loc_name := JStr "login"; loc_path := JUndefined;
                          loc_query :=
                            {["redirect" := JStr "/reports?year=2024"]};
                          loc_replace := false |}).
Proof.
  intros out.
  pose proof (beforeEach_priorities (scripted [] []) defaultGuardOptions
                reportsRoute anonymousWorld eq_refl)
    as (_ & _ & _ & Hprotected & _).
  apply Hprotected.
  - discriminate.
  - intros [_ H]. discriminate H.
  - exists {| meta := {["auth" := JBool true]} |}. split; [|reflexivity].
    apply list_elem_of_further, list_elem_of_here.
  - reflexivity.
Defined.

(** ** Beyond the stated properties: the refresh loop for every server *)

Lemma waited_app (l1 l2 : list Event) : waited (l1 ++ l2) = waited l1 + waited l2.
Proof.
  induction l1 as [|e l1 IH]; [reflexivity|].
  destruct e; cbn; rewrite ?IH; lia.
Qed.

Section RefreshForAll.
Context {B : Type}.
Variable storage : AuthStorage B.
Variable env : Env.
Variable options : AuthCoreOptions.

(** One turn of the loop, by the answer to its request. *)
Lemma refreshLoop_turn turns i lastError (w : World B) :
  refreshLoop storage env options (S turns) i lastError w =
  match http_answer env (requests w)
          (refreshRequest options (refreshToken (auth w))) with
  | Resolve r =>
      (Ok (accessTokenOf options (data r)),
       (refreshAttempt storage env options i w).2)
  | Reject e =>
      refreshLoop storage env options turns (i + 1) (EAxios e)
        (refreshAttempt storage env options i w).2
  end.
Proof.
  cbn [refreshLoop]. rewrite run_bind.
  destruct (http_answer env (requests w) _) as [r|e] eqn:E.
  - by rewrite (refreshAttempt_resolved storage env options w i r E).
  - by rewrite (refreshAttempt_rejected storage env options w i e E).
Qed.

(** Whatever the server answers, the loop ends in one of two ways: a token
    returned and stored with the refresh token kept, or the session cleared
    and an error thrown. *)
Lemma refreshLoop_outcome turns :
  ∀ i lastError (w : World B),
    let out := refreshLoop storage env options turns i lastError w in
    let rt := refreshToken (auth w) in
    (∃ n r,
       http_answer env n (refreshRequest options rt) = Resolve r
       ∧ out.1 = Ok (accessTokenOf options (data r))
       ∧ auth out.2 =
         set_refreshToken rt
           (set_token (accessTokenOf options (data r)) (auth w))
       ∧ backend out.2 =
         storeTokens storage (accessTokenOf options (data r)) rt (backend w))
    ∨ (∃ e,
         out.1 = Thrown e
         ∧ (turns = 0%nat -> e = lastError)
         ∧ (turns ≠ 0%nat ->
            ∃ n ae, http_answer env n (refreshRequest options rt) = Reject ae
                    ∧ e = EAxios ae)
         ∧ auth out.2 = cleared (auth w)
         ∧ backend out.2 = dropTokens storage (backend w)).
Proof.
  induction turns as [|turns IH]; intros i lastError w out rt; subst out rt.
  - right. exists lastError. rewrite refreshLoop_exhausted. cbn.
    split_and!; auto. done.
  - rewrite refreshLoop_turn.
    destruct (http_answer env (requests w) _) as [r|e] eqn:E.
    + left. exists (requests w), r.
      rewrite (refreshAttempt_resolved storage env options w i r E). done.
    + pose proof (refreshAttempt_rejected storage env options w i e E) as Hrun.
      match type of Hrun with _ = (_, ?W) => remember W as w1 eqn:Ew1 end.
      assert (auth w1 = auth w) as Ha by (by rewrite Ew1).
      assert (backend w1 = backend w) as Hb by (by rewrite Ew1).
      rewrite Hrun. cbn [snd]. clear Ew1 Hrun.
      specialize (IH (i + 1) (EAxios e) w1). cbn zeta in IH.
      rewrite Ha, Hb in IH.
      destruct IH as [IH | (e' & H1 & H2 & H3 & H4 & H5)]; [by left|].
      right. exists e'. split_and!; try done.
      intros _. destruct turns as [|turns].
      * exists (requests w), e. by rewrite H2.
      * by apply H3.
Qed.

Lemma refreshLoop_effort turns :
  ∀ i lastError (w : World B),
    0 <= i ->
    turns = 0%nat ∨ i + Z.of_nat turns = maxRetries options ->
    let out := refreshLoop storage env options turns i lastError w in
    (requests w ≤ requests out.2 ≤ requests w + turns)%nat
    ∧ navigations out.2 = navigations w
    ∧ ∃ suffix,
        trace out.2 = trace w ++ suffix
        ∧ Forall (refreshEvent
                    (refreshRequest options (refreshToken (auth w)))) suffix
        ∧ 0 <= waited suffix <= maxWait i turns.
Proof.
  induction turns as [|turns IH]; intros i lastError w Hi Hmax out; subst out.
  - rewrite refreshLoop_exhausted. cbn. split; [lia|]. split; [done|].
    exists []. rewrite app_nil_r. split_and!; try done.
  - destruct Hmax as [|Hmax]; [done|].
    rewrite refreshLoop_turn.
    destruct (http_answer env (requests w) _) as [r|e] eqn:E.
    + rewrite (refreshAttempt_resolved storage env options w i r E). cbn.
      split; [lia|]. split; [done|].
      eexists. split; [done|]. split.
      * constructor; [by left | constructor].
      * cbn. nia.
    + pose proof (refreshAttempt_rejected storage env options w i e E) as Hrun.
      match type of Hrun with _ = (_, ?W) => remember W as w1 eqn:Ew1 end.
      assert (auth w1 = auth w) as Ha by (by rewrite Ew1).
      assert (requests w1 = S (requests w)) as Hr by (by rewrite Ew1).
      assert (navigations w1 = navigations w) as Hn by (by rewrite Ew1).
      assert (trace w1 =
              trace w
              ++ EvHttp (refreshRequest options (refreshToken (auth w)))
                 :: (if bool_decide (i < maxRetries options - 1)
                     then [EvSleep (1000 * (i + 1))] else [])) as Ht.
      { rewrite Ew1. cbn. by rewrite <- app_assoc. }
      rewrite Hrun. cbn [snd]. clear Ew1 Hrun.
      destruct (IH (i + 1) (EAxios e) w1) as (Hreq & Hnav & suffix & Hs & Hev & Hw).
      { lia. }
      { destruct turns; [by left | right; lia]. }
      rewrite Ha in Hev. split; [lia|]. split; [congruence|].
      eexists. split; [rewrite Hs, Ht, <- app_assoc; reflexivity|]. split.
      * cbn. constructor; [by left|]. apply Forall_app_2; [|done].
        case_bool_decide; [|done].
        constructor; [right; eauto | constructor].
      * cbn [app waited]. rewrite waited_app.
        case_bool_decide as Hlt.
        -- destruct turns as [|turns]; [lia|].
           cbn [waited maxWait] in *. nia.
        -- destruct turns as [|turns]; cbn [waited maxWait] in *; [lia|lia].
Qed.

End RefreshForAll.

(** ** Beyond the stated properties: the session manager *)

(** The two ways [refreshAccessToken] can end, for every server. *)
Lemma refreshAccessToken_result {B} (storage : AuthStorage B)
    (env : Env) (options : AuthCoreOptions) (w : World B) :
  let out := refreshAccessToken storage env options w in
  let rt := refreshToken (auth w) in
  (∃ n r,
     http_answer env n (refreshRequest options rt) = Resolve r
     ∧ out.1 = Ok (accessTokenOf options (data r))
     ∧ truthy rt = true
     ∧ auth out.2 =
       {| token := accessTokenOf options (data r); refreshToken := rt;
          user := user (auth w); loading := loading (auth w);
          authenticated := authenticated (auth w) |}
     ∧ backend out.2 =
       storeTokens storage (accessTokenOf options (data r)) rt (backend w))
  ∨ (∃ e,
       out.1 = Thrown e
       ∧ (e = EError "No refresh token available" ∧ truthy rt = false
          ∨ e = ENull ∧ maxRetries options <= 0
          ∨ ∃ n ae, http_answer env n (refreshRequest options rt) = Reject ae
                    ∧ e = EAxios ae)
       ∧ auth out.2 = cleared (auth w)
       ∧ backend out.2 = dropTokens storage (backend w)).
Proof.
  intros out rt. subst out rt.
  destruct (truthy (refreshToken (auth w))) eqn:Hrt.
  - rewrite refreshAccessToken_loop by done.
    destruct (refreshLoop_outcome storage env options
                (Z.to_nat (maxRetries options)) 0 ENull w)
      as [(n & r & H1 & H2 & H3 & H4) | (e & H1 & H2 & H3 & H4 & H5)].
    + left. exists n, r. by rewrite H3.
    + right. exists e. split_and!; try done.
      destruct (Z.to_nat (maxRetries options)) eqn:E.
      * right. left. split; [by apply H2 | lia].
      * right. right. by apply H3.
  - right. exists (EError "No refresh token available").
    rewrite refreshAccessToken_no_token by done. cbn. split_and!; auto.
Qed.

(** X1.  [refreshAccessToken] is all or nothing, whatever the server does:
    either it returns the access token of a response it received, having
    changed nothing but the access token (refresh token, user,
    [authenticated] and [loading] as before), or it throws and the session
    is cleared in memory and in storage.  What it throws is the "no refresh
    token" error, or the rejection of one of its requests, or [null] when
    [maxRetries] admits no attempt. *)
Theorem refreshAccessToken_all_or_nothing {B} (storage : AuthStorage B)
    (env : Env) (options : AuthCoreOptions) (w : World B) :
  let out := refreshAccessToken storage env options w in
  let rt := refreshToken (auth w) in
  (∃ n r,
     http_answer env n (refreshRequest options rt) = Resolve r
     ∧ out.1 = Ok (accessTokenOf options (data r))
     ∧ truthy rt = true
     ∧ auth out.2 =
       {| token := accessTokenOf options (data r); refreshToken := rt;
          user := user (auth w); loading := loading (auth w);
          authenticated := authenticated (auth w) |}
     ∧ backend out.2 =
       storeTokens storage (accessTokenOf options (data r)) rt (backend w))
  ∨ (∃ e,
       out.1 = Thrown e
       ∧ (e = EError "No refresh token available" ∧ truthy rt = false
          ∨ e = ENull ∧ maxRetries options <= 0
          ∨ ∃ n ae, http_answer env n (refreshRequest options rt) = Reject ae
                    ∧ e = EAxios ae)
       ∧ auth out.2 = cleared (auth w)
       ∧ backend out.2 = dropTokens storage (backend w)).
Proof. exact (refreshAccessToken_result storage env options w). Qed.

(** X2.  The effort of [refreshAccessToken] is bounded, whatever the server
    does: it sends at most [maxRetries] requests, all of them the refresh
    request, sleeps at most [1000 * (1 + ... + (maxRetries - 1))]
    milliseconds in all (3000 with the default), starts no navigation and
    calls no callback. *)
Theorem refreshAccessToken_bounded {B} (storage : AuthStorage B)
    (env : Env) (options : AuthCoreOptions) (w : World B) :
  let out := refreshAccessToken storage env options w in
  let m := Z.max 1 (maxRetries options) in
  (requests w ≤ requests out.2 ≤ requests w + Z.to_nat (maxRetries options))%nat
  ∧ navigations out.2 = navigations w
  ∧ ∃ suffix,
      trace out.2 = trace w ++ suffix
      ∧ Forall (refreshEvent
                  (refreshRequest options (refreshToken (auth w)))) suffix
      ∧ 0 <= waited suffix <= 500 * m * (m - 1)
      ∧ (core_maxRetries options = None -> waited suffix <= 3000).
Proof.
  intros out m. subst out m.
  destruct (truthy (refreshToken (auth w))) eqn:Hrt.
  - rewrite refreshAccessToken_loop by done.
    destruct (refreshLoop_effort storage env options
                (Z.to_nat (maxRetries options)) 0 ENull w)
      as (Hreq & Hnav & suffix & Hs & Hev & Hw).
    { lia. }
    { destruct (Z.to_nat (maxRetries options)) eqn:E; [by left | right; lia]. }
    split; [done|]. split; [done|]. exists suffix. split_and!; try done.
    + lia.
    + destruct (Z.to_nat (maxRetries options)) eqn:E;
        cbn [maxWait] in Hw; nia.
    + unfold maxRetries in *. intros Hnone. rewrite Hnone in Hw.
      change (maxWait 0 (Z.to_nat (default 3 None))) with 3000 in Hw. lia.
  - rewrite refreshAccessToken_no_token by done. cbn.
    split; [lia|]. split; [done|]. exists []. rewrite app_nil_r.
    split_and!; try done; cbn; try nia; try (intros; lia).
Qed.

(** With the defaults and the network down. *)
Lemma refreshAccessToken_bounded_witness :
  ∃ suffix,
    trace (refreshAccessToken defaultStorage (scripted [] []) defaultOptions
             sessionWorld).2 = suffix
    ∧ waited suffix <= 3000.
Proof.
  destruct (refreshAccessToken_bounded defaultStorage (scripted [] [])
              defaultOptions sessionWorld)
    as (_ & _ & suffix & Hs & _ & _ & H).
  exists suffix. split; [exact Hs | exact (H eq_refl)].
Defined.

Section SessionRuns.
Context {B : Type}.
Variable src : Source.
Variable storage : AuthStorage B.
Variable env : Env.
Variable options : AuthCoreOptions.

Lemma initialize_no_token (w : World B) :
  truthy (token (auth w)) = false ->
  initialize src storage env options w =
  (Ok tt,
   {| auth := set_loading false (auth w); backend := backend w;
      requests := requests w; navigations := navigations w;
      trace := trace w;
      console := (console w ++ [LogNoToken]) ++ [LogInitDone] |}).
Proof.
  intros H. unfold initialize. run. rewrite H. reflexivity.
Qed.

Lemma initialize_resolved (w : World B) r :
  truthy (token (auth w)) = true ->
  http_answer env (requests w) (userRequest options) = Resolve r ->
  let out := initialize src storage env options w in
  out.1 = Ok tt
  ∧ auth out.2 = {| token := token (auth w);
                    refreshToken := refreshToken (auth w);
                    user := Some (data r); loading := false;
                    authenticated := true |}
  ∧ backend out.2 = backend w
  ∧ requests out.2 = S (requests w)
  ∧ trace out.2 =
    trace w ++ [EvHttp (userRequest options)]
    ++ called (invokes_callbacks src && core_onFetchUser options)
         (EvOnFetchUser (data r)).
Proof.
  intros Ht H out. subst out. unfold initialize.
  cbv beta delta [mbind M_bind mret M_ret finally try_catch assign log
                  get_auth].
  cbn. rewrite Ht.
  erewrite fetchUser_resolved by exact H. cbn.
  by rewrite <- app_assoc.
Qed.

Lemma initialize_rejected (w : World B) e :
  truthy (token (auth w)) = true ->
  http_answer env (requests w) (userRequest options) = Reject e ->
  let out := initialize src storage env options w in
  out.1 = Ok tt
  ∧ auth out.2 = {| token := JNull; refreshToken := JNull; user := None;
                    loading := false; authenticated := false |}
  ∧ backend out.2 = dropTokens storage (dropTokens storage (backend w))
  ∧ requests out.2 = S (requests w)
  ∧ trace out.2 = trace w ++ [EvHttp (userRequest options)]
  ∧ console out.2 =
    console w ++ [LogTokenFound; LogInitError (EAxios e); LogInitDone].
Proof.
  intros Ht H out. subst out. unfold initialize.
  cbv beta delta [mbind M_bind mret M_ret finally try_catch assign log
                  get_auth].
  cbn. rewrite Ht.
  erewrite fetchUser_rejected by exact H. cbn.
  rewrite clearAuth_run. cbn. by rewrite <- ?app_assoc.
Qed.

End SessionRuns.

(** ** Every call as a sequence of session steps *)

Tactic Notation "step_with" open_constr(c) :=
  eapply rtc_l; [apply c|]; cbn.

Section Steps.
Context {B : Type}.
Variable P : JsVal -> Prop.
Variable src : Source.
Variable storage : AuthStorage B.
Variable env : Env.
Variable options : AuthCoreOptions.
Hypothesis server : serverTokens P env options.

Lemma perform_steps (op : Operation) (w : World B) :
  argumentTokens P op ->
  rtc (SessionStep P storage) (auth w, backend w)
    (auth (perform src storage env options op w),
     backend (perform src storage env options op w)).
Proof.
  intros Hop. destruct op as [credentials| | | | | |userData|t r];
    cbn [perform].
  - (* login *)
    destruct (http_answer env (requests w) (loginRequest options credentials))
      as [r|e] eqn:Epost.
    + destruct (server _ _ _ Epost) as [Pt Pr].
      destruct (http_answer env (S (requests w)) (userRequest options))
        as [u|e] eqn:Eget.
      * rewrite (login_succeeds src storage env options w credentials r u
                   Epost Eget). cbn.
        step_with (step_stored P storage _ _ _ _ Pt Pr).
        step_with (step_signed_in P storage (data u)).
        step_with (step_loading P storage false). done.
      * rewrite (login_fetch_rejected src storage env options w credentials
                   r e Epost Eget). cbn.
        step_with (step_stored P storage _ _ _ _ Pt Pr).
        step_with (step_cleared P storage).
        step_with (step_loading P storage false). done.
    + rewrite (login_post_rejected src storage env options w credentials e
                 Epost). cbn.
      step_with (step_loading P storage false). done.
  - (* logout *)
    destruct (router_answer env (navigations w) (logoutTarget src options))
      as [e|] eqn:E.
    + rewrite (logout_navigation_failed src storage env options w e E). cbn.
      step_with (step_signed_out P storage). done.
    + rewrite (logout_navigated src storage env options w E). cbn.
      step_with (step_cleared P storage). done.
  - (* fetchUser *)
    destruct (http_answer env (requests w) (userRequest options))
      as [r|e] eqn:E.
    + rewrite (fetchUser_resolved src storage env options w r E). cbn.
      step_with (step_signed_in P storage (data r)).
      step_with (step_loading P storage false). done.
    + rewrite (fetchUser_rejected src storage env options w e E). cbn.
      step_with (step_cleared P storage).
      step_with (step_loading P storage false). done.
  - (* refreshAccessToken *)
    destruct (refreshAccessToken_result storage env options w)
      as [(n & r & Hr & _ & _ & Ha & Hb) | (e & _ & _ & Ha & Hb)];
      rewrite Ha, Hb.
    + destruct (server _ _ _ Hr) as [Pt _].
      step_with (step_renewed P storage _ _ _ Pt). done.
    + step_with (step_cleared P storage). done.
  - (* clearAuth *)
    rewrite clearAuth_run. cbn. step_with (step_cleared P storage). done.
  - (* initialize *)
    destruct (truthy (token (auth w))) eqn:Ht.
    + destruct (http_answer env (requests w) (userRequest options))
        as [r|e] eqn:E.
      * destruct (initialize_resolved src storage env options w r Ht E)
          as (_ & Ha & Hb & _). rewrite Ha, Hb.
        step_with (step_signed_in P storage (data r)).
        step_with (step_loading P storage false). done.
      * destruct (initialize_rejected src storage env options w e Ht E)
          as (_ & Ha & Hb & _). rewrite Ha, Hb.
        step_with (step_cleared P storage).
        step_with (step_cleared P storage).
        step_with (step_loading P storage false). done.
    + rewrite (initialize_no_token src storage env options w Ht). cbn.
      step_with (step_loading P storage false). done.
  - (* setUser *)
    cbn. step_with (step_user P storage userData). done.
  - (* setTokens *)
    destruct Hop as [Pt Pr]. rewrite setTokens_run. cbn.
    step_with (step_stored P storage _ _ _ _ Pt Pr). done.
Qed.

Lemma performAll_steps (ops : list Operation) (w : World B) :
  Forall (argumentTokens P) ops ->
  rtc (SessionStep P storage) (auth w, backend w)
    (auth (performAll src storage env options ops w),
     backend (performAll src storage env options ops w)).
Proof.
  revert w. induction ops as [|op ops IH]; intros w Hops.
  - done.
  - inversion Hops as [|? ? Hop Hrest]; subst. cbn.
    etrans; [apply (perform_steps op w Hop)|]. by apply IH.
Qed.

End Steps.

(** ** Invariants of the session across calls *)

Lemma everything_allowed (ops : list Operation) :
  Forall (argumentTokens (λ _, True)) ops.
Proof. apply Forall_forall. intros op _. by destruct op. Qed.

Lemma storeTokens_read {B} (storage : AuthStorage B) t r (b : B) :
  StorageLaws storage -> tokenValue t -> tokenValue r ->
  readToken storage (storeTokens storage t r b) = t ||| JNull
  ∧ readRefreshToken storage (storeTokens storage t r b) = r ||| JNull.
Proof.
  intros L Ht Hr.
  pose proof (setTokens_stored storage t r
                {| auth := {| token := JNull; refreshToken := JNull;
                              user := None; loading := false;
                              authenticated := false |};
                   backend := b; requests := 0; navigations := 0;
                   trace := []; console := [] |} L Ht Hr) as H.
  by rewrite setTokens_run in H.
Qed.

Lemma dropTokens_read {B} (storage : AuthStorage B) (b : B) :
  StorageLaws storage ->
  readToken storage (dropTokens storage b) = JNull
  ∧ readRefreshToken storage (dropTokens storage b) = JNull.
Proof.
  intros L. unfold dropTokens. split.
  - rewrite (token_remove_refresh _ L). apply (read_remove_token _ L).
  - apply (read_remove_refresh _ L).
Qed.

Lemma jor_null_idem v : (v ||| JNull) ||| JNull = v ||| JNull.
Proof. unfold jor. by destruct (truthy v) eqn:E; [rewrite E|]. Qed.

(** X3.  A signed-in session always has a user: if [authenticated] implies
    a user before a sequence of calls to the instance (login, logout,
    fetchUser, refreshAccessToken, clearAuth, initialize, setUser,
    setTokens, in any order, against any server and router), it does after
    it; and it does in the state [createAuthCore] starts from. *)
Theorem session_user_known {B} (src : Source) (storage : AuthStorage B)
    (env : Env) (options : AuthCoreOptions) (ops : list Operation)
    (w : World B) :
  userKnown (auth w) ->
  userKnown (auth (performAll src storage env options ops w))
  ∧ ∀ b, userKnown (initialState storage b).
Proof.
  intros Hw. split; [|by intros b].
  pose proof (performAll_steps (λ _, True) src storage env options
                ltac:(by intros ???) ops w (everything_allowed ops)) as Hsteps.
  remember (auth w, backend w) as x eqn:Ex.
  remember (auth (performAll src storage env options ops w),
            backend (performAll src storage env options ops w)) as y eqn:Ey.
  assert (userKnown x.1) as Hx by (by subst x).
  enough (userKnown y.1) by (by subst y).
  clear Ex Ey Hw. induction Hsteps as [x|x y z Hstep _ IH]; [done|].
  apply IH. destruct Hstep; cbn in *; unfold userKnown in *; cbn; auto;
    try done.
Qed.

Lemma session_user_known_witness :
  let tokens := {| status := 200;
                   data := {["access" := JStr "A"; "refresh" := JStr "R"]} |} in
  let profile := {| status := 200; data := {["name" := JStr "ana"]} |} in
  let env := scripted [Resolve tokens; Resolve profile; Reject unauthorized]
               [Some ETypeError] in
  userKnown
    (auth (performAll auth_ts defaultStorage env defaultOptions
             [DoLogin ∅; DoSetTokens JNull (JStr "R"); DoRefreshAccessToken;
              DoLogout; DoInitialize]
             emptyWorld)).
Proof.
  intros tokens profile env.
  apply (session_user_known auth_ts defaultStorage env defaultOptions).
  intros H. discriminate H.
Defined.

(** X4.  Memory and storage stay in agreement across calls: on a storage
    that behaves as two slots, with a server that sends its tokens as
    strings and an application that hands [setTokens] strings or [null], if
    each slot holds the in-memory token (nothing for an absent one) before a
    sequence of calls to the instance, it does after it. *)
Theorem session_storage_in_sync {B} (src : Source) (storage : AuthStorage B)
    (env : Env) (options : AuthCoreOptions) (ops : list Operation)
    (w : World B) :
  StorageLaws storage ->
  serverTokens tokenValue env options ->
  Forall (argumentTokens tokenValue) ops ->
  inSync storage w ->
  inSync storage (performAll src storage env options ops w).
Proof.
  intros L Hserver Hops Hw.
  pose proof (performAll_steps tokenValue src storage env options Hserver
                ops w Hops) as Hsteps.
  unfold inSync in *.
  remember (auth w, backend w) as x eqn:Ex.
  remember (auth (performAll src storage env options ops w),
            backend (performAll src storage env options ops w)) as y eqn:Ey.
  set (I := λ p : AuthState * B,
         tokenValue (token p.1) ∧ tokenValue (refreshToken p.1)
         ∧ readToken storage p.2 ||| JNull = token p.1 ||| JNull
         ∧ readRefreshToken storage p.2 ||| JNull
           = refreshToken p.1 ||| JNull).
  assert (I x) as Hx by (by subst x).
  enough (I y) by (by subst y).
  clear Ex Ey Hw. induction Hsteps as [x|x y z Hstep _ IH]; [done|].
  apply IH. clear IH. subst I. cbn in *.
  destruct Hstep as [v s b|s b|u s b|u s b|t r s b Pt Pr|t s b Pt|s b];
    cbn in *; try done.
  - destruct (storeTokens_read storage t r b L Pt Pr) as [-> ->].
    by rewrite !jor_null_idem.
  - destruct Hx as (_ & Pr & _).
    destruct (storeTokens_read storage t (refreshToken s) b L Pt Pr)
      as [-> ->].
    by rewrite !jor_null_idem.
  - destruct (dropTokens_read storage b L) as [-> ->]. done.
Qed.

Lemma scripted_serverTokens :
  serverTokens tokenValue
    (scripted [Resolve {| status := 200;
                          data := {["access" := JStr "A";
                                    "refresh" := JStr "R"]} |};
               Reject unauthorized;
               Resolve {| status := 200; data := {["token" := JStr "T"]} |}]
       [])
    defaultOptions.
Proof.
  intros n req r. destruct n as [|[|[|n]]]; cbn; intros [= <-] || intros [=];
    by vm_compute.
Qed.

Lemma session_storage_in_sync_witness :
  let env := scripted [Resolve {| status := 200;
                                  data := {["access" := JStr "A";
                                            "refresh" := JStr "R"]} |};
                       Reject unauthorized;
                       Resolve {| status := 200;
                                  data := {["token" := JStr "T"]} |}] [] in
  inSync defaultStorage
    (performAll auth_js defaultStorage env defaultOptions
       [DoLogin ∅; DoSetTokens (JStr "") (JStr "R"); DoRefreshAccessToken]
       emptyWorld).
Proof.
  intros env.
  apply (session_storage_in_sync auth_js defaultStorage env defaultOptions).
  - exact defaultStorage_laws.
  - exact scripted_serverTokens.
  - repeat constructor.
  - repeat split.
Defined.

(** X5.  The default storage owns two keys of [localStorage] and no other:
    whatever sequence of calls is made on the instance, every key other
    than ["token"] and ["refresh_token"] holds what it held. *)
Theorem defaultStorage_other_keys_untouched (src : Source) (env : Env)
    (options : AuthCoreOptions) (ops : list Operation)
    (w : World (gmap string string)) (k : string) :
  k ≠ "token" -> k ≠ "refresh_token" ->
  backend (performAll src defaultStorage env options ops w) !! k
  = backend w !! k.
Proof.
  intros Hk1 Hk2.
  assert ("token" ≠ k) as Hk3 by congruence.
  assert ("refresh_token" ≠ k) as Hk4 by congruence.
  pose proof (performAll_steps (λ _, True) src defaultStorage env options
                ltac:(by intros ???) ops w (everything_allowed ops)) as Hsteps.
  remember (auth w, backend w) as x eqn:Ex.
  remember (auth (performAll src defaultStorage env options ops w),
            backend (performAll src defaultStorage env options ops w))
    as y eqn:Ey.
  enough (y.2 !! k = x.2 !! k) by (by subst x y).
  clear Ex Ey. induction Hsteps as [x|x y z Hstep _ IH]; [done|].
  rewrite IH. clear IH.
  destruct Hstep as [v s b|s b|u s b|u s b|t r s b Pt Pr|t s b Pt|s b];
    cbn; try done.
  - unfold storeTokens. destruct (truthy t), (truthy r); cbn;
      unfold setItem, removeItem; by simplify_map_eq.
  - unfold storeTokens. destruct (truthy t), (truthy (refreshToken s)); cbn;
      unfold setItem, removeItem; by simplify_map_eq.
  - unfold dropTokens. cbn. unfold removeItem.
    by rewrite !lookup_delete_ne.
Qed.

Lemma defaultStorage_other_keys_untouched_witness :
  let w := with_backend {["theme" := "dark"; "token" := "old"]} emptyWorld in
  backend (performAll auth_ts defaultStorage (scripted [] []) defaultOptions
             [DoSetTokens (JStr "A") (JStr "R"); DoLogout; DoLogin ∅] w)
    !! "theme" = Some "dark".
Proof.
  intros w.
  rewrite (defaultStorage_other_keys_untouched auth_ts (scripted [] [])
             defaultOptions _ w "theme");
    [reflexivity | discriminate | discriminate].
Defined.

(** ** The other methods of the instance *)

(** X6.  [clearAuth] recovers from any state: whatever memory and storage
    held, and however they disagreed, afterwards both tokens and the user
    are absent, [authenticated] is false, [loading] is what it was, both
    slots of a two-slot storage read [null], memory and storage agree, and
    a second [clearAuth] changes nothing in the session.  It makes no
    request and no navigation and cannot throw. *)
Theorem clearAuth_recovers {B} (storage : AuthStorage B) (w : World B) :
  let out := clearAuth storage w in
  out.1 = Ok tt
  ∧ auth out.2 = {| token := JNull; refreshToken := JNull; user := None;
                    loading := loading (auth w); authenticated := false |}
  ∧ requests out.2 = requests w
  ∧ navigations out.2 = navigations w
  ∧ trace out.2 = trace w
  ∧ auth (clearAuth storage out.2).2 = auth out.2
  ∧ (StorageLaws storage ->
     readToken storage (backend out.2) = JNull
     ∧ readRefreshToken storage (backend out.2) = JNull
     ∧ inSync storage out.2
     ∧ readToken storage (backend (clearAuth storage out.2).2) = JNull
     ∧ readRefreshToken storage (backend (clearAuth storage out.2).2) = JNull).
Proof.
  intros out. subst out. rewrite !clearAuth_run. cbn.
  split_and!; try done.
  intros L.
  destruct (dropTokens_read storage (backend w) L) as [H1 H2].
  destruct (dropTokens_read storage (dropTokens storage (backend w)) L)
    as [H3 H4].
  unfold dropTokens in *. unfold inSync. cbn. rewrite H1, H2, H3, H4. done.
Qed.

(** A session whose memory and storage disagree, cleared. *)
Lemma clearAuth_recovers_witness :
  let w := with_backend {["token" := "stale"]} emptyWorld in
  StorageLaws defaultStorage
  ∧ readToken defaultStorage (backend w) = JStr "stale"
  ∧ token (auth w) = JNull
  ∧ inSync defaultStorage (clearAuth defaultStorage w).2.
Proof.
  intros w. split; [exact defaultStorage_laws|].
  split; [reflexivity|]. split; [reflexivity|].
  destruct (clearAuth_recovers defaultStorage w)
    as (_ & _ & _ & _ & _ & _ & H).
  destruct (H defaultStorage_laws) as (_ & _ & Hsync & _). exact Hsync.
Defined.

(** X7.  Tokens survive a reload, and nothing else does: the state
    [createAuthCore] builds from the storage [setTokens] wrote holds the
    same pair (a falsy token as [null]), no user, [authenticated] false and
    [loading] true; built from the storage [clearAuth] wrote, it holds no
    token. *)
Theorem reload_restores_tokens {B} (storage : AuthStorage B) (t r : JsVal)
    (w : World B) :
  StorageLaws storage -> tokenValue t -> tokenValue r ->
  initialState storage (backend (setTokens storage t r w).2)
  = {| token := t ||| JNull; refreshToken := r ||| JNull; user := None;
       loading := true; authenticated := false |}
  ∧ (truthy t = true -> truthy r = true ->
     token (initialState storage (backend (setTokens storage t r w).2)) = t
     ∧ refreshToken
         (initialState storage (backend (setTokens storage t r w).2)) = r)
  ∧ initialState storage (backend (clearAuth storage w).2)
    = {| token := JNull; refreshToken := JNull; user := None;
         loading := true; authenticated := false |}.
Proof.
  intros L Ht Hr. rewrite setTokens_run, clearAuth_run. cbn.
  fold (storeTokens storage t r (backend w)).
  fold (dropTokens storage (backend w)).
  destruct (storeTokens_read storage t r (backend w) L Ht Hr) as [H1 H2].
  destruct (dropTokens_read storage (backend w) L) as [H3 H4].
  unfold initialState. rewrite H1, H2, H3, H4, !jor_null_idem.
  split_and!; try done.
  intros Tt Tr. cbn. unfold jor. by rewrite Tt, Tr.
Qed.

Lemma reload_restores_tokens_witness :
  initialState defaultStorage
    (backend (setTokens defaultStorage (JStr "A") (JStr "") sessionWorld).2)
  = {| token := JStr "A"; refreshToken := JNull; user := None;
       loading := true; authenticated := false |}.
Proof.
  destruct (reload_restores_tokens defaultStorage (JStr "A") (JStr "")
              sessionWorld defaultStorage_laws I I) as (H & _).
  exact H.
Defined.



(** X9.  [login] does not require the response to carry a token: when
    none of the access fields and none of the refresh fields of the body is
    truthy and the user fetch succeeds, it reports success and the session
    is authenticated, with no access token and no refresh token in memory
    and both slots of the storage removed. *)
Theorem login_without_tokens {B} (src : Source) (storage : AuthStorage B)
    (env : Env) (options : AuthCoreOptions)
    (credentials : gmap string JsVal) (w : World B) (r u : Response) :
  http_answer env (requests w) (loginRequest options credentials) = Resolve r ->
  http_answer env (S (requests w)) (userRequest options) = Resolve u ->
  truthy (prop (data r) (tokenKey options)) = false ->
  truthy (prop (data r) "access") = false ->
  truthy (prop (data r) "token") = false ->
  truthy (prop (data r) (refreshTokenKey options)) = false ->
  truthy (prop (data r) "refresh") = false ->
  truthy (prop (data r) "refresh_token") = false ->
  let out := login src storage env options credentials w in
  out.1 = Ok {| success := true; result_user := Some (Some (data u));
                result_error := None; result_message := None |}
  ∧ authenticated (auth out.2) = true
  ∧ truthy (token (auth out.2)) = false
  ∧ truthy (refreshToken (auth out.2)) = false
  ∧ backend out.2 = dropTokens storage (backend w)
  ∧ (data r !! "token" = None -> data r !! "refresh_token" = None ->
     token (auth out.2) = JUndefined
     ∧ refreshToken (auth out.2) = JUndefined).
Proof.
  intros Hpost Hget H1 H2 H3 H4 H5 H6 out. subst out.
  rewrite (login_succeeds src storage env options w credentials r u
             Hpost Hget). cbn.
  assert (accessTokenOf options (data r) = prop (data r) "token") as ->
    by (unfold accessTokenOf, jor; by rewrite H1, H2).
  assert (refreshOf options (data r) = prop (data r) "refresh_token") as ->
    by (unfold refreshOf, jor; by rewrite H4, H5).
  unfold storeTokens. rewrite H3, H6. split_and!; try done.
  intros Hn1 Hn2. unfold prop. by rewrite Hn1, Hn2.
Qed.

(** A cookie-based backend answering [{ok: true}] to the login POST. *)
Lemma login_without_tokens_witness :
  let accepted := {| status := 200; data := {["ok" := JBool true]} |} in
  let profile := {| status := 200; data := {["name" := JStr "ana"]} |} in
  let out := login auth_js defaultStorage
               (scripted [Resolve accepted; Resolve profile] [])
               defaultOptions ∅ emptyWorld in
  authenticated (auth out.2) = true
  ∧ token (auth out.2) = JUndefined
  ∧ refreshToken (auth out.2) = JUndefined.
Proof.
  intros accepted profile out.
  destruct (login_without_tokens auth_js defaultStorage
              (scripted [Resolve accepted; Resolve profile] [])
              defaultOptions ∅ emptyWorld accepted profile
              eq_refl eq_refl eq_refl eq_refl eq_refl eq_refl eq_refl eq_refl)
    as (_ & H2 & _ & _ & _ & H6).
  destruct (H6 eq_refl eq_refl) as [H7 H8].
  split; [exact H2|]. split; [exact H7 | exact H8].
Defined.

(** X10.  A [logout] whose navigation fails is a half logout, in both
    source files: nothing is thrown and the error is logged, [authenticated]
    is false, but [clearAuth] and the logout callback are skipped: tokens
    and user stay in memory, the storage is untouched, and the request
    interceptor goes on attaching the access token. *)
Theorem logout_failed_navigation_keeps_tokens {B} (src : Source)
    (storage : AuthStorage B) (env : Env) (options : AuthCoreOptions)
    (w : World B) (e : JsError) (cfg : Request) :
  router_answer env (navigations w) (logoutTarget src options) = Some e ->
  let out := logout src storage env options w in
  out.1 = Ok tt
  ∧ auth out.2 = set_authenticated false (auth w)
  ∧ backend out.2 = backend w
  ∧ trace out.2 = trace w ++ [EvReplace (logoutTarget src options)]
  ∧ console out.2 = console w ++ [LogError e]
  ∧ (truthy (token (auth w)) = true ->
     (requestFulfilled cfg out.2).1
     = Ok (with_authorization (token (auth w)) cfg)).
Proof.
  intros H out. subst out.
  rewrite (logout_navigation_failed src storage env options w e H). cbn.
  split_and!; try done.
  intros Ht. unfold requestFulfilled. run. by rewrite Ht.
Qed.

Lemma logout_failed_navigation_keeps_tokens_witness :
  let out := logout auth_ts defaultStorage (scripted [] [Some ETypeError])
               callbackOptions sessionWorld in
  authenticated (auth out.2) = false
  ∧ token (auth out.2) = JStr "old"
  ∧ backend out.2 = backend sessionWorld
  ∧ trace out.2 = [EvReplace (logoutTarget auth_ts callbackOptions)].
Proof.
  intros out.
  destruct (logout_failed_navigation_keeps_tokens auth_ts defaultStorage
              (scripted [] [Some ETypeError]) callbackOptions sessionWorld
              ETypeError profileRequest eq_refl)
    as (_ & H2 & H3 & H4 & _).
  split; [exact (f_equal authenticated H2)|].
  split; [exact (f_equal token H2)|]. split; [exact H3 | exact H4].
Defined.





(** ** The interceptor pair *)

Lemma with_authorization_idem t req :
  with_authorization t (with_authorization t req) = with_authorization t req.
Proof.
  unfold with_authorization. cbn. by rewrite insert_insert_eq.
Qed.

(** X13.  The request interceptor never fails and never changes the
    session.  With an access token held it sets [Authorization] to the
    bearer form of that token, overwriting any value the request had;
    without one it returns the request as it is, a header already present
    included.  Method, URL, body, the other headers and the two internal
    flags are never touched, and passing a request through it twice is the
    same as once. *)
Theorem requestFulfilled_attaches {B} (cfg : Request) (w : World B) :
  let out := requestFulfilled cfg w in
  out.2 = w
  ∧ ∃ cfg',
      out.1 = Ok cfg'
      ∧ method cfg' = method cfg ∧ url cfg' = url cfg ∧ body cfg' = body cfg
      ∧ _skipAuthRefresh cfg' = _skipAuthRefresh cfg
      ∧ _retry cfg' = _retry cfg
      ∧ (∀ h, h ≠ "Authorization" -> headers cfg' !! h = headers cfg !! h)
      ∧ (truthy (token (auth w)) = true ->
         headers cfg' !! "Authorization"
         = Some ("Bearer " +:+ toString (token (auth w))))
      ∧ (truthy (token (auth w)) = false -> cfg' = cfg)
      ∧ requestFulfilled cfg' w = (Ok cfg', w).
Proof.
  intros out. subst out. unfold requestFulfilled. run.
  destruct (truthy (token (auth w))) eqn:Ht.
  - split; [done|]. eexists. split; [done|]. cbn.
    split_and!; try done.
    + intros h Hh. by rewrite lookup_insert_ne.
    + intros _. by rewrite lookup_insert_eq.
    + by rewrite with_authorization_idem.
  - split; [done|]. exists cfg. split_and!; try done.
Qed.

Lemma requestFulfilled_attaches_witness :
  (∃ cfg', (requestFulfilled profileRequest sessionWorld).1 = Ok cfg'
           ∧ headers cfg' !! "Authorization" = Some "Bearer old")
  ∧ (∃ cfg', (requestFulfilled
                (with_authorization JUndefined profileRequest)
                anonymousWorld).1 = Ok cfg'
             ∧ cfg' = with_authorization JUndefined profileRequest).
Proof.
  split.
  - destruct (requestFulfilled_attaches profileRequest sessionWorld)
      as (_ & cfg' & H1 & _ & _ & _ & _ & _ & _ & H8 & _).
    exists cfg'. split; [exact H1 | exact (H8 eq_refl)].
  - destruct (requestFulfilled_attaches
                (with_authorization JUndefined profileRequest) anonymousWorld)
      as (_ & cfg' & H1 & _ & _ & _ & _ & _ & _ & _ & H9 & _).
    exists cfg'. split; [exact H1 | exact (H9 eq_refl)].
Defined.

(** X14.  The request is replayed with the header the response interceptor
    gave it: after a successful refresh the request interceptor, met again
    by the replay, leaves the replayed request as it is.  When the refresh
    returned an absent token this header is the text form of that value,
    ["Bearer undefined"] for a body without token fields, and it stays. *)
Theorem replay_header_stays {B} (storage : AuthStorage B) (env : Env)
    (options : AuthCoreOptions) (req : Request) (w w1 : World B)
    (newToken : JsVal) :
  refreshAccessToken storage env options w = (Ok newToken, w1) ->
  let replay := with_authorization newToken (mark_retry req) in
  requestFulfilled replay w1 = (Ok replay, w1)
  ∧ headers replay !! "Authorization" = Some ("Bearer " +:+ toString newToken)
  ∧ (newToken = JUndefined ->
     headers replay !! "Authorization" = Some "Bearer undefined").
Proof.
  intros Hrun replay. subst replay.
  destruct (refreshAccessToken_result storage env options w)
    as [(n & r & _ & H1 & _ & Ha & _) | (e & H1 & _)];
    rewrite Hrun in *; cbn in *; [|done].
  injection H1 as ->.
  split_and!.
  - unfold requestFulfilled. run. rewrite Ha. cbn.
    destruct (truthy (accessTokenOf options (data r))); [|done].
    by rewrite with_authorization_idem.
  - cbn. by rewrite lookup_insert_eq.
  - intros ->. cbn. by rewrite lookup_insert_eq.
Qed.

Lemma replay_header_stays_witness :
  let empty := {| status := 200; data := {["ok" := JBool true]} |} in
  let out := refreshAccessToken defaultStorage (scripted [Resolve empty] [])
               defaultOptions sessionWorld in
  out.1 = Ok JUndefined
  ∧ headers (with_authorization JUndefined (mark_retry profileRequest))
      !! "Authorization" = Some "Bearer undefined"
  ∧ (requestFulfilled
       (with_authorization JUndefined (mark_retry profileRequest)) out.2).1
    = Ok (with_authorization JUndefined (mark_retry profileRequest)).
Proof.
  intros empty out.
  destruct (replay_header_stays defaultStorage (scripted [Resolve empty] [])
              defaultOptions profileRequest sessionWorld out.2 JUndefined
              eq_refl) as (H1 & _ & H3).
  split; [reflexivity|]. split; [exact (H3 eq_refl)|].
  rewrite H1. reflexivity.
Defined.

(** X15.  The JavaScript and the TypeScript response interceptors agree on
    every error that carries its request config, and on every error that is
    not a 401.  On a 401 without a config they part: interceptors.js
    rejects with a [TypeError] before anything else happens, where
    interceptors.ts goes on to the checks on the refresh token. *)
Theorem responseRejected_js_agrees {B} (storage : AuthStorage B) (env : Env)
    (options : AuthCoreOptions)
    (onSessionExpired : option (World B -> World B))
    (error : AxiosError) (w : World B) :
  (config error ≠ None ∨ error_status error ≠ Some 401 ->
   responseRejected_js storage env options onSessionExpired error w
   = responseRejected storage env options onSessionExpired error w)
  ∧ (config error = None -> error_status error = Some 401 ->
     responseRejected_js storage env options onSessionExpired error w
     = (Thrown ETypeError, w)
     ∧ (truthy (refreshToken (auth w)) = false ->
        responseRejected storage env options onSessionExpired error w
        = (Thrown (EAxios error), w))).
Proof.
  split.
  - intros H. unfold responseRejected_js, responseRejected.
    case_bool_decide as Hs; [done|].
    destruct (config error) as [req|] eqn:Ec.
    + cbn. destruct (_skipAuthRefresh req); [done|].
      by destruct (_retry req).
    + by destruct H.
  - intros Hc Hs. split.
    + unfold responseRejected_js.
      rewrite bool_decide_eq_false_2 by (by intros ?). by rewrite Hc.
    + intros Ht. apply responseRejected_no_refresh_token; try done;
        by rewrite Hc.
Qed.

Lemma responseRejected_js_agrees_witness :
  let renewed := {| status := 200; data := {["access" := JStr "new"]} |} in
  let profile := {| status := 200; data := {["name" := JStr "ana"]} |} in
  let env := scripted [Resolve renewed; Resolve profile] [] in
  (responseRejected_js defaultStorage env defaultOptions
     (Some appSessionExpired) (unauthorizedFor profileRequest)
     sessionWorld).1 = Ok profile
  ∧ (responseRejected_js defaultStorage env defaultOptions
       (Some appSessionExpired) unauthorized sessionWorld)
    = (Thrown ETypeError, sessionWorld).
Proof.
  intros renewed profile env. split.
  - destruct (responseRejected_js_agrees defaultStorage env defaultOptions
                (Some appSessionExpired) (unauthorizedFor profileRequest)
                sessionWorld) as [H _].
    rewrite H; [reflexivity | left; discriminate].
  - destruct (responseRejected_js_agrees defaultStorage env defaultOptions
                (Some appSessionExpired) unauthorized sessionWorld)
      as [_ H].
    destruct (H eq_refl eq_refl) as [H1 _]. exact H1.
Defined.

(** X16.  Through [createAuth] a session-expired handler is always
    installed.  When the application gives none, a 401 on a request already
    retried, and a refresh that fails, both end with the session cleared in
    memory and storage and one navigation started to the configured login
    route (to ["login"] when none, or an empty name, is configured) with
    the query [expired=true]; what is rejected is the original error in the
    first case and the refresh error in the second. *)
Theorem default_session_expired {B} (storage : AuthStorage B) (env : Env)
    (options : AuthCoreOptions) (o : AuthOptions) (error : AxiosError)
    (w : World B) (req : Request) :
  opt_onSessionExpired o = false ->
  error_status error = Some 401 ->
  config error = Some req ->
  _skipAuthRefresh req = false ->
  let handler := createAuth_onSessionExpired storage o in
  let out := responseRejected storage env options handler error w in
  let target :=
    {| loc_name := match opt_loginRouteName o with
                   | Some route => if decide (route = "") then JStr "login"
                                   else JStr route
                   | None => JStr "login"
                   end;
       loc_path := JUndefined;
       loc_query := {["expired" := JStr "true"]};
       loc_replace := false |} in
  handler ≠ None
  ∧ (_retry req = true ->
     out.1 = Thrown (EAxios error)
     ∧ auth out.2 = cleared (auth w)
     ∧ backend out.2 = dropTokens storage (backend w)
     ∧ requests out.2 = requests w
     ∧ trace out.2 = trace w ++ [EvReplace target])
  ∧ (_retry req = false -> truthy (refreshToken (auth w)) = true ->
     ∀ refreshError w1,
       refreshAccessToken storage env options w = (Thrown refreshError, w1) ->
       out.1 = Thrown refreshError
       ∧ auth out.2 = cleared (auth w)
       ∧ backend out.2 = dropTokens storage (dropTokens storage (backend w))
       ∧ trace out.2 = trace w1 ++ [EvReplace target]).
Proof.
  intros Ho Hs Hc Hskip handler out target. subst handler out target.
  assert (from_option JStr JUndefined (opt_loginRouteName o) ||| JStr "login"
          = match opt_loginRouteName o with
            | Some route => if decide (route = "") then JStr "login"
                            else JStr route
            | None => JStr "login"
            end) as Hname.
  { destruct (opt_loginRouteName o) as [route|]; [|done].
    unfold jor. cbn. by case_decide. }
  split; [done|]. split.
  - intros Hr.
    rewrite (responseRejected_retried _ _ _ _ _ _ req Hs Hc Hskip Hr).
    unfold createAuth_onSessionExpired. rewrite Ho. cbn.
    rewrite clearAuth_run, Hname. done.
  - intros Hr Ht refreshError w1 Hrun.
    rewrite (responseRejected_refreshes storage env options _ error w Hs)
      by (by rewrite ?Hc; cbn; rewrite ?Hskip, ?Hr).
    rewrite Hrun.
    destruct (refreshAccessToken_result storage env options w)
      as [(n & r & _ & H1 & _) | (e & _ & _ & Ha & Hb)];
      rewrite Hrun in *; cbn in *; [done|].
    unfold createAuth_onSessionExpired. rewrite Ho. cbn.
    rewrite clearAuth_run, Hname. cbn. rewrite Ha, Hb. done.
Qed.

(** A second 401 on the replayed request, no handler given, login route
    ["signin"]. *)
Lemma default_session_expired_witness :
  let error := unauthorizedFor (mark_retry profileRequest) in
  let out := responseRejected defaultStorage (scripted [] []) defaultOptions
               (createAuth_onSessionExpired defaultStorage
                  {| opt_onSessionExpired := false; opt_onError := false;
                     opt_onLogin := false; opt_onLogout := false;
                     opt_onFetchUser := false; opt_endpoints := None;
                     opt_tokenKey := None; opt_refreshTokenKey := None;
                     opt_maxRetries := None;
                     opt_loginRouteName := Some "signin";
                     opt_resetPasswordRouteName := None;
                     opt_publicMetaKey := None; opt_authMetaKey := None;
                     opt_defaultRedirect := None |})
               error sessionWorld in
  auth out.2 = cleared (auth sessionWorld)
  ∧ trace out.2 =
    [EvReplace {| loc_name := JStr "signin"; loc_path := JUndefined;
                  loc_query := {["expired" := JStr "true"]};
                  loc_replace := false |}].
Proof.
  intros error out.
  destruct (default_session_expired defaultStorage (scripted [] [])
              defaultOptions
              {| opt_onSessionExpired := false; opt_onError := false;
                 opt_onLogin := false; opt_onLogout := false;
                 opt_onFetchUser := false; opt_endpoints := None;
                 opt_tokenKey := None; opt_refreshTokenKey := None;
                 opt_maxRetries := None;
                 opt_loginRouteName := Some "signin";
                 opt_resetPasswordRouteName := None;
                 opt_publicMetaKey := None; opt_authMetaKey := None;
                 opt_defaultRedirect := None |}
              error sessionWorld (mark_retry profileRequest)
              eq_refl eq_refl eq_refl eq_refl) as (_ & Hretried & _).
  destruct (Hretried eq_refl) as (_ & H2 & _ & _ & H5).
  split; [exact H2 | exact H5].
Defined.

(** ** The guard beyond its settled case *)

Lemma beforeEach_decision {B} (env : Env) (options : GuardOptions)
    (to : Route) (w : World B) :
  loading (auth w) = false ->
  beforeEach env options to w
  = (Ok (guardDecision options to (authenticated (auth w))), w).
Proof. apply beforeEach_settled. Qed.

(** X17.  The guard fails open.  While the session is loading it waits
    once; whether the wait ends by the flag or by the timeout, the guard
    then decides as it would have with [loading] false, on the session as
    it is at that moment, and a timeout only adds a warning to the console.
    It never throws, and it waits only when [loading] is true. *)
Theorem beforeEach_fails_open {B} (env : Env) (options : GuardOptions)
    (to : Route) (w : World B) :
  let out := beforeEach env options to w in
  let after := wait_answer env (auth w) in
  (loading (auth w) = true ->
   out.1 = Ok (guardDecision options to (authenticated after.2))
   ∧ auth out.2 = after.2
   ∧ trace out.2 = trace w ++ [EvWaitForRef]
   ∧ console out.2
     = console w ++ (if after.1 then [WarnLoadingTimeout] else []))
  ∧ (loading (auth w) = false ->
     out = (Ok (guardDecision options to (authenticated (auth w))), w)).
Proof.
  intros out after. subst out after. split.
  - intros Hl. unfold beforeEach, waitForRef. run. rewrite Hl.
    destruct (wait_answer env (auth w)) as [timedOut s]. cbn.
    unfold guardDecision.
    destruct timedOut; run; rewrite ?app_nil_r;
      (destruct (truthy (prop (query to) "logout")); cbn; [done|];
       destruct (bool_decide (name to = JStr (guardLoginRouteName options))
                 || bool_decide
                      (name to = JStr (resetPasswordRouteName options)));
       destruct (authenticated s);
       destruct (existsb _ (matched to)); cbn; by rewrite ?app_nil_r).
  - apply beforeEach_decision.
Qed.

(** A wait that times out with the session still anonymous. *)
Lemma beforeEach_fails_open_witness :
  let env := {| http_answer := λ _ _, Reject networkError;
                router_answer := λ _ _, None;
                wait_answer := λ s, (true, s) |} in
  let out := beforeEach env defaultGuardOptions reportsRoute emptyWorld in
  out.1 = Ok (Redirect {| loc_name := JStr "login"; loc_path := JUndefined;
                          loc_query :=
                            {["redirect" := JStr "/reports?year=2024"]};
                          loc_replace := false |})
  ∧ console out.2 = [WarnLoadingTimeout].
Proof.
  intros env out.
  destruct (beforeEach_fails_open env defaultGuardOptions reportsRoute
              emptyWorld) as [H _].
  destruct (H eq_refl) as (H1 & _ & _ & H4).
  split; [exact H1 | exact H4].
Defined.

Lemma existsb_Forall2 {A} (f g : A -> bool) (l1 l2 : list A) :
  Forall2 (λ a1 a2, f a1 = g a2) l1 l2 -> existsb f l1 = existsb g l2.
Proof.
  induction 1 as [|a1 a2 l1 l2 H _ IH]; [done|]. cbn. by rewrite H, IH.
Qed.

(** X18.  The guard reads the matched records only for their auth flag.
    Two targets with the same path, full path, name and query, whose
    matched records agree one by one on the truthiness of the auth meta
    flag, get the same decision; and the option [publicMetaKey], with the
    flag it names, has no influence on any decision. *)
Theorem beforeEach_ignores_public {B} (env : Env) (options : GuardOptions)
    (to to' : Route) (w : World B) (key : option string) :
  path to = path to' -> fullPath to = fullPath to' -> name to = name to' ->
  query to = query to' ->
  Forall2 (λ record record',
             truthy (prop (meta record) (authMetaKey options))
             = truthy (prop (meta record') (authMetaKey options)))
    (matched to) (matched to') ->
  beforeEach env options to w = beforeEach env options to' w
  ∧ beforeEach env
      {| guard_loginRouteName := guard_loginRouteName options;
         guard_resetPasswordRouteName := guard_resetPasswordRouteName options;
         guard_publicMetaKey := key;
         guard_authMetaKey := guard_authMetaKey options;
         guard_defaultRedirect := guard_defaultRedirect options |} to w
    = beforeEach env options to w.
Proof.
  intros Hp Hf Hn Hq Hm. split.
  - unfold beforeEach. rewrite Hp, Hf, Hn, Hq.
    by rewrite (existsb_Forall2 _ _ _ _ Hm).
  - reflexivity.
Qed.

(** A record marked both public and protected is protected. *)
Lemma beforeEach_ignores_public_witness :
  let marked := {| path := "/reports"; fullPath := "/reports?year=2024";
                   name := JStr "reports";
                   query := {["year" := JStr "2024"]};
                   matched := [ {| meta := {["public" := JBool true]} |};
                                {| meta := {["auth" := JBool true;
                                             "public" := JBool true]} |} ] |} in
  beforeEach (scripted [] []) defaultGuardOptions marked anonymousWorld
  = beforeEach (scripted [] []) defaultGuardOptions reportsRoute
      anonymousWorld.
Proof.
  intros marked.
  destruct (beforeEach_ignores_public (scripted [] []) defaultGuardOptions
              marked reportsRoute anonymousWorld None
              eq_refl eq_refl eq_refl eq_refl) as [H _].
  - repeat constructor.
  - exact H.
Defined.

(** X19.  The redirect to the login route leads back.  An anonymous visit
    to a protected target is sent to the login route with [redirect] set to
    the target's full path.  On the route the router makes of that
    location, the guard lets an anonymous session through if the login
    route is not itself protected, and sends an authenticated one,
    replacing history, to the path first asked for. *)
Theorem guard_redirect_round_trip {B} (env : Env) (options : GuardOptions)
    (to login : Route) (w w' : World B) :
  loading (auth w) = false -> authenticated (auth w) = false ->
  truthy (prop (query to) "logout") = false ->
  (∃ record, record ∈ matched to
             ∧ truthy (prop (meta record) (authMetaKey options)) = true) ->
  fullPath to ≠ "" ->
  name login = JStr (guardLoginRouteName options) ->
  query login = {["redirect" := JStr (fullPath to)]} ->
  loading (auth w') = false ->
  (beforeEach env options to w).1
  = Ok (Redirect {| loc_name := name login; loc_path := JUndefined;
                    loc_query := query login; loc_replace := false |})
  ∧ (authenticated (auth w') = true ->
     (beforeEach env options login w').1
     = Ok (Redirect {| loc_name := JUndefined;
                       loc_path := JStr (fullPath to);
                       loc_query := ∅; loc_replace := true |}))
  ∧ (authenticated (auth w') = false ->
     (∀ record, record ∈ matched login ->
                truthy (prop (meta record) (authMetaKey options)) = false) ->
     (beforeEach env options login w').1 = Ok Proceed).
Proof.
  intros Hl Ha Hm Hprot Hfull Hname Hquery Hl'.
  rewrite !beforeEach_decision by done. cbn [fst]. unfold guardDecision.
  rewrite Hm, Ha, Hname, Hquery, andb_false_r.
  apply requiresAuth_spec in Hprot. rewrite Hprot. cbn [andb negb].
  assert (prop ({["redirect" := JStr (fullPath to)]} : gmap string JsVal)
            "logout" = JUndefined) as ->
    by (by rewrite prop_singleton_ne).
  rewrite prop_singleton_eq. change (truthy JUndefined) with false. cbv iota.
  rewrite bool_decide_eq_true_2 by done. cbn [orb].
  split; [done|]. split.
  - intros ->. cbn [andb]. unfold jor.
    by rewrite (truthy_JStr _ Hfull).
  - intros -> Hopen. cbn [andb negb].
    destruct (existsb _ (matched login)) eqn:E; [|done].
    apply existsb_exists in E as (record & Hin & Ht).
    apply list_elem_of_In in Hin. by rewrite (Hopen record Hin) in Ht.
Qed.

Lemma guard_redirect_round_trip_witness :
  let login := {| path := "/login";
                  fullPath := "/login?redirect=/reports?year=2024";
                  name := JStr "login";
                  query := {["redirect" := JStr "/reports?year=2024"]};
                  matched := [ {| meta := {["public" := JBool true]} |} ] |} in
  (beforeEach (scripted [] []) defaultGuardOptions login sessionWorld).1
  = Ok (Redirect {| loc_name := JUndefined;
                    loc_path := JStr "/reports?year=2024";
                    loc_query := ∅; loc_replace := true |})
  ∧ (beforeEach (scripted [] []) defaultGuardOptions login anonymousWorld).1
    = Ok Proceed.
Proof.
  intros login.
  assert (∃ record, record ∈ matched reportsRoute
                    ∧ truthy (prop (meta record)
                                (authMetaKey defaultGuardOptions)) = true)
    as Hprot.
  { exists {| meta := {["auth" := JBool true]} |}. split; [|reflexivity].
    apply list_elem_of_further, list_elem_of_here. }
  split.
  - destruct (guard_redirect_round_trip (scripted [] []) defaultGuardOptions
                reportsRoute login anonymousWorld sessionWorld
                eq_refl eq_refl eq_refl Hprot ltac:(discriminate)
                eq_refl eq_refl eq_refl) as (_ & H & _).
    exact (H eq_refl).
  - destruct (guard_redirect_round_trip (scripted [] []) defaultGuardOptions
                reportsRoute login anonymousWorld anonymousWorld
                eq_refl eq_refl eq_refl Hprot ltac:(discriminate)
                eq_refl eq_refl eq_refl) as (_ & _ & H).
    apply (H eq_refl).
    intros record Hin. apply list_elem_of_singleton in Hin. by subst.
Defined.

(** X20.  Manual control does not sign in: [setTokens] and [setUser], in
    any number and order, leave [authenticated] and [loading] as they are,
    so the guard goes on sending an anonymous session away from a protected
    target. *)
Theorem manual_control_does_not_sign_in {B} (src : Source)
    (storage : AuthStorage B) (env : Env) (options : AuthCoreOptions)
    (guard : GuardOptions) (ops : list Operation) (to : Route)
    (w : World B) :
  Forall (λ op, match op with
                | DoSetTokens _ _ | DoSetUser _ => True
                | _ => False
                end) ops ->
  let w' := performAll src storage env options ops w in
  authenticated (auth w') = authenticated (auth w)
  ∧ loading (auth w') = loading (auth w)
  ∧ trace w' = trace w
  ∧ (loading (auth w) = false -> authenticated (auth w) = false ->
     truthy (prop (query to) "logout") = false ->
     (∃ record, record ∈ matched to
                ∧ truthy (prop (meta record) (authMetaKey guard)) = true) ->
     (beforeEach env guard to w').1
     = Ok (Redirect {| loc_name := JStr (guardLoginRouteName guard);
                       loc_path := JUndefined;
                       loc_query := {["redirect" := JStr (fullPath to)]};
                       loc_replace := false |})).
Proof.
  intros Hops w'. subst w'.
  assert (authenticated (auth (performAll src storage env options ops w))
          = authenticated (auth w)
          ∧ loading (auth (performAll src storage env options ops w))
            = loading (auth w)
          ∧ trace (performAll src storage env options ops w) = trace w)
    as (Ha & Hl & Ht).
  { revert w. induction Hops as [|op ops Hop _ IH]; intros w; [done|].
    change (performAll src storage env options (op :: ops) w)
      with (performAll src storage env options ops
              (perform src storage env options op w)).
    destruct (IH (perform src storage env options op w))
      as (-> & -> & ->).
    destruct op; try done; cbn [perform].
    by rewrite setTokens_run. }
  split; [done|]. split; [done|]. split; [done|].
  intros Hload Hauth Hm Hprot.
  rewrite beforeEach_decision by congruence. cbn [fst].
  unfold guardDecision. rewrite Hm, Ha, Hauth, andb_false_r.
  apply requiresAuth_spec in Hprot. by rewrite Hprot.
Qed.

Lemma manual_control_does_not_sign_in_witness :
  (beforeEach (scripted [] []) defaultGuardOptions reportsRoute
     (performAll auth_ts defaultStorage (scripted [] []) defaultOptions
        [DoSetTokens (JStr "A") (JStr "R"); DoSetUser {["name" := JStr "ana"]}]
        anonymousWorld)).1
  = Ok (Redirect {| loc_name := JStr "login"; loc_path := JUndefined;
                    loc_query := {["redirect" := JStr "/reports?year=2024"]};
                    loc_replace := false |}).
Proof.
  destruct (manual_control_does_not_sign_in auth_ts defaultStorage
              (scripted [] []) defaultOptions defaultGuardOptions
              [DoSetTokens (JStr "A") (JStr "R");
               DoSetUser {["name" := JStr "ana"]}]
              reportsRoute anonymousWorld) as (_ & _ & _ & H).
  - repeat constructor.
  - apply H; try reflexivity.
    exists {| meta := {["auth" := JBool true]} |}. split; [|reflexivity].
    apply list_elem_of_further, list_elem_of_here.
Defined.

(** ** utils.ts: [waitForRef] *)

Section WaitForRef.
Context {T : Type}.
Variable predicate : T -> bool.

Lemma watching_pending (ticks : list (Utils.Tick T)) :
  Utils.watching predicate ticks = None ↔ Forall (passes predicate) ticks.
Proof.
  induction ticks as [|[value|] rest IH]; cbn.
  - split; [constructor | done].
  - destruct (predicate value) eqn:E.
    + split; [done|]. intros H. inversion H as [|? ? (v & Heq & Hv) _].
      congruence.
    + rewrite IH. split.
      * intros H. constructor; [by exists value | done].
      * by inversion 1.
  - split; [done|]. intros H. inversion H as [|? ? (v & Hv & _) _]. done.
Qed.

Lemma watching_resolved (ticks : list (Utils.Tick T)) (value : T) :
  Utils.watching predicate ticks = Some (Utils.Resolved value)
  ↔ predicate value = true
    ∧ ∃ before after, ticks = before ++ Utils.Changed value :: after
                      ∧ Forall (passes predicate) before.
Proof.
  induction ticks as [|[v|] rest IH]; cbn.
  - split; [done|]. intros (_ & before & after & H & _).
    by destruct before.
  - destruct (predicate v) eqn:E.
    + split.
      * intros [= <-]. split; [done|]. exists [], rest. by split.
      * intros (Hv & before & after & H & Hb).
        destruct before as [|tick before]; cbn in H.
        -- by injection H as ->.
        -- injection H as <- _. inversion Hb as [|? ? (v' & Heq & Hv') _].
           congruence.
    + rewrite IH. split.
      * intros (Hv & before & after & -> & Hb). split; [done|].
        exists (Utils.Changed v :: before), after. split; [done|].
        constructor; [by exists v | done].
      * intros (Hv & before & after & H & Hb). split; [done|].
        destruct before as [|tick before]; cbn in H.
        -- injection H as -> _. congruence.
        -- injection H as <- ->. exists before, after. split; [done|].
           by inversion Hb.
  - split; [done|]. intros (_ & before & after & H & Hb).
    destruct before as [|tick before]; cbn in H; [done|].
    injection H as <- _. inversion Hb as [|? ? (v' & Hv' & _) _]. done.
Qed.

Lemma watching_rejected (ticks : list (Utils.Tick T)) (error : JsError) :
  Utils.watching predicate ticks = Some (Utils.Rejected error)
  ↔ error = EError "Timeout waiting for ref"
    ∧ ∃ before after, ticks = before ++ Utils.TimerFired :: after
                      ∧ Forall (passes predicate) before.
Proof.
  induction ticks as [|[v|] rest IH]; cbn.
  - split; [done|]. intros (_ & before & after & H & _).
    by destruct before.
  - destruct (predicate v) eqn:E.
    + split; [done|]. intros (_ & before & after & H & Hb).
      destruct before as [|tick before]; cbn in H; [done|].
      injection H as <- _. inversion Hb as [|? ? (v' & Heq & Hv') _].
      congruence.
    + rewrite IH. split.
      * intros (He & before & after & -> & Hb). split; [done|].
        exists (Utils.Changed v :: before), after. split; [done|].
        constructor; [by exists v | done].
      * intros (He & before & after & H & Hb). split; [done|].
        destruct before as [|tick before]; cbn in H; [done|].
        injection H as <- ->. exists before, after. split; [done|].
        by inversion Hb.
  - split.
    + intros [= <-]. split; [done|]. exists [], rest. by split.
    + intros (-> & _). done.
Qed.

Lemma watching_app (ticks more : list (Utils.Tick T))
    (outcome : Utils.Settled T) :
  Utils.watching predicate ticks = Some outcome ->
  Utils.watching predicate (ticks ++ more) = Some outcome.
Proof.
  induction ticks as [|[v|] rest IH]; cbn; [done| |done].
  destruct (predicate v); [done | apply IH].
Qed.

(** X21.  What [waitForRef] settles to.  It resolves only with a value that
    satisfies the predicate: the current one, at once and whatever happens
    later, or the first satisfying value the watcher sees before the timer.
    It rejects, with the timeout error, exactly when the timer fires before
    any satisfying value; and it stays pending exactly while every value
    seen fails the predicate and the timer has not fired. *)
Theorem waitForRef_outcomes (current : T) (ticks : list (Utils.Tick T)) :
  (predicate current = true ->
   Utils.waitForRef current predicate ticks = Some (Utils.Resolved current))
  ∧ (∀ value,
       Utils.waitForRef current predicate ticks = Some (Utils.Resolved value)
       -> predicate value = true)
  ∧ (predicate current = false ->
     (∀ value,
        Utils.waitForRef current predicate ticks
        = Some (Utils.Resolved value)
        ↔ predicate value = true
          ∧ ∃ before after, ticks = before ++ Utils.Changed value :: after
                            ∧ Forall (passes predicate) before)
     ∧ (∀ error,
          Utils.waitForRef current predicate ticks
          = Some (Utils.Rejected error)
          ↔ error = EError "Timeout waiting for ref"
            ∧ ∃ before after, ticks = before ++ Utils.TimerFired :: after
                              ∧ Forall (passes predicate) before)
     ∧ (Utils.waitForRef current predicate ticks = None
        ↔ Forall (passes predicate) ticks)).
Proof.
  unfold Utils.waitForRef. split_and!.
  - by intros ->.
  - intros value. destruct (predicate current) eqn:E.
    + by intros [= <-].
    + cbn. rewrite E. intros H. by apply watching_resolved in H as [? _].
  - intros E. rewrite E. cbn. rewrite E. split_and!.
    + apply watching_resolved.
    + apply watching_rejected.
    + apply watching_pending.
Qed.

(** X22.  A settled promise stays as it is: once [waitForRef] has resolved
    or rejected, nothing that happens to the ref or the timer afterwards
    changes the outcome. *)
Theorem waitForRef_settles_once (current : T)
    (ticks more : list (Utils.Tick T)) (outcome : Utils.Settled T) :
  Utils.waitForRef current predicate ticks = Some outcome ->
  Utils.waitForRef current predicate (ticks ++ more) = Some outcome.
Proof.
  unfold Utils.waitForRef. destruct (predicate current); [done|].
  apply (watching_app (Utils.Changed current :: ticks)).
Qed.

End WaitForRef.

(** The guard's wait, [waitForRef(auth.loading, v => v === false)], while
    [loading] goes true, true, false and the timer fires afterwards. *)
Lemma waitForRef_outcomes_witness :
  Utils.waitForRef true negb
    [Utils.Changed true; Utils.Changed false; Utils.TimerFired]
  = Some (Utils.Resolved false).
Proof.
  destruct (waitForRef_outcomes negb true
              [Utils.Changed true; Utils.Changed false; Utils.TimerFired])
    as (_ & _ & H).
  destruct (H eq_refl) as (H1 & _ & _).
  apply H1. split; [reflexivity|].
  exists [Utils.Changed true], [Utils.TimerFired]. split; [reflexivity|].
  constructor; [|constructor]. exists true. split; reflexivity.
Defined.

Lemma waitForRef_settles_once_witness :
  Utils.waitForRef true negb
    ([Utils.Changed true; Utils.TimerFired] ++ [Utils.Changed false])
  = Some (Utils.Rejected (EError "Timeout waiting for ref")).
Proof.
  apply (waitForRef_settles_once negb true
           [Utils.Changed true; Utils.TimerFired] [Utils.Changed false]).
  reflexivity.
Defined.
